(** * Data-format kernels of the tf2xla bridge

    A shallow embedding of
    [tensorflow/compiler/tf2xla/kernels/data_format_ops.cc]: the two
    kernels [DataFormatDimMapOp] and [DataFormatVecPermuteOp], their
    constructors (attribute validation and the derivation of the index
    table) and their [Compile] methods (the value computed by the XLA
    fragment they emit). *)

From Stdlib Require Import ZArith String Ascii Lia.
From stdpp Require Import base list strings pretty.

Local Open Scope Z_scope.

(** ** Status and the OP_REQUIRES discipline *)

(** [errors::InvalidArgument(msg)]; it is the only error code that the
    file produces. *)
Inductive Status : Type :=
| InvalidArgument (msg : string).

Definition error_message (s : Status) : string :=
  match s with InvalidArgument m => m end.

(** A constructor either leaves an error status in the context and
    returns early, or finishes with the object built. *)
Definition StatusOr (A : Type) : Type := (Status + A)%type.

Definition ok {A} (a : A) : StatusOr A := inr a.

(** [OP_REQUIRES(ctx, cond, status)]: when [cond] is false, record
    [status] and return from the enclosing function. *)
Definition OP_REQUIRES {A} (cond : bool) (st : Status) (k : StatusOr A)
  : StatusOr A :=
  if cond then k else inl st.

Notation "'REQUIRE' c 'ELSE' e ';;' k" :=
  (OP_REQUIRES c e k)
  (at level 10, c at level 0, e at level 0, k at level 200,
   format "'[v' 'REQUIRE'  c  'ELSE'  e ';;' '/' k ']'").

(** [absl::StrCat] on strings is concatenation. *)
Definition StrCat2 (a b : string) : string := a +:+ b.
Definition StrCat3 (a b c : string) : string := a +:+ b +:+ c.

(** The characters of a [std::string], by position. *)
Definition chars (s : string) : list ascii := String.list_ascii_of_string s.

Definition size (s : string) : nat := String.length s.

(** ** XLA values

    [Compile] does not compute: it asks the XLA builder for graph nodes.
    An [XlaOp] is modelled by the array its node denotes: element type,
    dimensions, and the elements in row-major order. *)

Inductive PrimitiveType : Type := S32 | S64.

Definition bit_width (ty : PrimitiveType) : Z :=
  match ty with S32 => 32 | S64 => 64 end.

(** The two's complement value of [z] in the signed type [ty]. *)
Definition wrap (ty : PrimitiveType) (z : Z) : Z :=
  (z + 2 ^ (bit_width ty - 1)) mod 2 ^ bit_width ty - 2 ^ (bit_width ty - 1).

Definition min_value (ty : PrimitiveType) : Z := - 2 ^ (bit_width ty - 1).
Definition max_value (ty : PrimitiveType) : Z := 2 ^ (bit_width ty - 1) - 1.

Record XlaOp : Type := {
  element_type : PrimitiveType;
  dimensions : list Z;
  values : list Z
}.

(** Elements per index of the first dimension, and the [i]-th slice
    along the first dimension. *)
Definition row_size (t : XlaOp) : nat :=
  Z.to_nat (foldr Z.mul 1 (tail (dimensions t))).

Definition row (t : XlaOp) (i : nat) : list Z :=
  take (row_size t) (drop (i * row_size t) (values t)).

(** An array holds one element per index. *)
Definition well_formed (t : XlaOp) : Prop :=
  Forall (λ d, 0 <= d) (dimensions t) ∧
  Z.of_nat (length (values t)) = foldr Z.mul 1 (dimensions t).

(** What this file takes from the rest of the code base without seeing
    its text: the layout-name validator of [tensor_format.h], the
    printer of [TensorShape], and how the backend's gather resolves an
    index outside the operand. *)
Record Externals : Type := {
  FormatFromString : string → bool;
  DebugString : list Z → string;
  gather_out_of_bounds : Z → Z → nat
}.

Module xla.

(** Modelled from the spec: "build a constant array of integers"
    ([xla::ConstantR1], declared in [xla_builder.h]). *)
Definition ConstantR1 (ty : PrimitiveType) (l : list Z) : XlaOp :=
  {| element_type := ty;
     dimensions := [Z.of_nat (length l)];
     values := l |}.

(** Modelled from the spec: "build a scalar constant"
    ([xla::ConstantR0], declared in [xla_builder.h]). *)
Definition ConstantR0 (ty : PrimitiveType) (v : Z) : XlaOp :=
  {| element_type := ty; dimensions := []; values := [v] |}.

(** Modelled from the spec: "element-wise numeric type conversion"
    ([xla::ConvertElementType], declared in [xla_builder.h]); between
    signed integer types the two's complement value is kept, as a C++
    [static_cast] does. *)
Definition ConvertElementType (t : XlaOp) (ty : PrimitiveType) : XlaOp :=
  {| element_type := ty;
     dimensions := dimensions t;
     values := wrap ty <$> values t |}.

(** A scalar right operand is broadcast to the shape of the left one. *)
Definition broadcast_to (x y : XlaOp) : list Z :=
  match dimensions y, values y with
  | [], [c] => replicate (length (values x)) c
  | _, vs => vs
  end.

Definition binary (f : Z → Z → Z) (x y : XlaOp) : XlaOp :=
  {| element_type := element_type x;
     dimensions := dimensions x;
     values := zip_with (λ a b, wrap (element_type x) (f a b))
                        (values x) (broadcast_to x y) |}.

(** Modelled from the spec: "element-wise arithmetic (add, modulo)".
    [operator+] on [XlaOp] is [xla::Add], which wraps around in the
    element type. *)
Definition Add : XlaOp → XlaOp → XlaOp := binary Z.add.

(** Modelled from the spec: "element-wise arithmetic (add, modulo)".
    [operator%] on [XlaOp] is [xla::Rem], the remainder of the division
    that truncates towards zero, as C++ [%] on [int32]: its sign is the
    sign of the dividend. *)
Definition Rem : XlaOp → XlaOp → XlaOp := binary Z.rem.

(** The slice of the operand that index [ix] selects. *)
Definition resolve (E : Externals) (extent ix : Z) : nat :=
  if (0 <=? ix) && (ix <? extent) then Z.to_nat ix
  else gather_out_of_bounds E extent ix.

(** Modelled from the spec: "gather/select-by-index along an axis"
    ([xla::TorchIndexSelect] of [client/lib/slicing.h], at [dim = 0]):
    the result has one slice of the operand per element of [index]. *)
Definition TorchIndexSelect (E : Externals) (operand index : XlaOp) : XlaOp :=
  {| element_type := element_type operand;
     dimensions := dimensions index ++ tail (dimensions operand);
     values :=
       concat ((λ ix, row operand (resolve E (default 0 (head (dimensions operand))) ix))
                 <$> values index) |}.

End xla.

(** ** DataFormatDimMapOp *)

Module DimMap.

(** The object state: [std::array<int32, 4> dst_idx_]. *)
Record DataFormatDimMapOp : Type := { dst_idx_ : list Z }.

(** Member initialiser [dst_idx_ = {{-1, -1, -1, -1}}]. *)
Definition dst_idx_init : list Z := [-1; -1; -1; -1].

(** The inner loop, from position [j] on, over the rest of [dst_format]:
    [if (dst_format[j] == src_format[i]) { dst_idx_[i] = j; break; }]. *)
Fixpoint inner_loop (dst : list ascii) (j : nat) (c : ascii)
         (i : nat) (arr : list Z) : list Z :=
  match dst with
  | [] => arr
  | d :: dst' =>
      if Ascii.eqb d c then <[i := Z.of_nat j]> arr
      else inner_loop dst' (S j) c i arr
  end.

(** The outer loop, from position [i] on, over the rest of [src_format];
    after each inner loop, [OP_REQUIRES(context, dst_idx_[i] != -1, ...)]. *)
Fixpoint outer_loop (src_format dst_format : string)
         (src : list ascii) (i : nat) (arr : list Z) : StatusOr (list Z) :=
  match src with
  | [] => ok arr
  | c :: src' =>
      let arr' := inner_loop (chars dst_format) 0 c i arr in
      REQUIRE (negb (arr' !!! i =? -1))
      ELSE (InvalidArgument
              (StrCat3 src_format " is not a permutation of " dst_format)) ;;
      outer_loop src_format dst_format src' (S i) arr'
  end.

(** The constructor.  The two attributes are its arguments: the op
    definition declares both, so [GetAttr] finds them. *)
Definition new (src_format dst_format : string)
  : StatusOr DataFormatDimMapOp :=
  REQUIRE (Nat.eqb (size src_format) 4)
  ELSE (InvalidArgument
          (StrCat2 "Source format must of length 4, received src_format = "
                   src_format)) ;;
  REQUIRE (Nat.eqb (size dst_format) 4)
  ELSE (InvalidArgument
          (StrCat2 "Destination format must of length 4, received dst_format = "
                   dst_format)) ;;
  match outer_loop src_format dst_format (chars src_format) 0 dst_idx_init with
  | inl st => inl st
  | inr arr => ok {| dst_idx_ := arr |}
  end.

(** [src_indices]: the input converted to [S32], plus four, modulo four. *)
Definition src_indices (input : XlaOp) : XlaOp :=
  let four := xla.ConstantR0 S32 4 in
  xla.Rem (xla.Add (xla.ConvertElementType input S32) four) four.

(** [Compile]; it has no failing path, the value is the output set by
    [context->SetOutput(0, ...)]. *)
Definition Compile (E : Externals) (this : DataFormatDimMapOp)
           (input : XlaOp) : XlaOp :=
  let dst_indices := xla.ConstantR1 S32 (dst_idx_ this) in
  let output := xla.TorchIndexSelect E dst_indices (src_indices input) in
  xla.ConvertElementType output (element_type input).

End DimMap.

(** ** DataFormatVecPermuteOp *)

Module VecPermute.

Record DataFormatVecPermuteOp : Type := {
  src_format_ : string;
  dst_format_ : string
}.

Definition new (E : Externals) (src_format dst_format : string)
  : StatusOr DataFormatVecPermuteOp :=
  REQUIRE (Nat.eqb (size src_format) 4)
  ELSE (InvalidArgument "Data format should have 4 characters") ;;
  REQUIRE (FormatFromString E src_format)
  ELSE (InvalidArgument "Invalid data format") ;;
  REQUIRE (Nat.eqb (size dst_format) 4)
  ELSE (InvalidArgument "Data format should have 4 characters") ;;
  REQUIRE (FormatFromString E dst_format)
  ELSE (InvalidArgument "Invalid data format") ;;
  ok {| src_format_ := src_format; dst_format_ := dst_format |}.

(** [TensorShape::dims] and [TensorShape::dim_size]; the latter is only
    called below a check that the dimension exists. *)
Definition dims (shape : list Z) : Z := Z.of_nat (length shape).
Definition dim_size (shape : list Z) (d : nat) : Z := shape !!! d.

(** [int32 dst_indices[4];] has no initialiser: an element holds a value
    only once an iteration has assigned it. *)
Definition dst_indices_init : list (option Z) := [None; None; None; None].

(** The inner loop, from position [j] on, over the rest of [dst_format_]:
    [if (src_format_[i] == dst_format_[j]) { dst_indices[j] = i; break; }]. *)
Fixpoint inner_loop (dst : list ascii) (j : nat) (c : ascii)
         (i : nat) (arr : list (option Z)) : list (option Z) :=
  match dst with
  | [] => arr
  | d :: dst' =>
      if Ascii.eqb c d then <[j := Some (Z.of_nat i)]> arr
      else inner_loop dst' (S j) c i arr
  end.

Fixpoint outer_loop (dst : list ascii) (src : list ascii) (i : nat)
         (arr : list (option Z)) : list (option Z) :=
  match src with
  | [] => arr
  | c :: src' => outer_loop dst src' (S i) (inner_loop dst 0 c i arr)
  end.

(** The index table that [Compile] fills; both strings have four
    characters once the constructor has accepted them. *)
Definition dst_indices (this : DataFormatVecPermuteOp) : list (option Z) :=
  outer_loop (chars (dst_format_ this)) (chars (src_format_ this)) 0
             dst_indices_init.

(** [Compile].  [inl st]: a check failed, the status is set and no
    output.  [inr (Some t)]: [ctx->SetOutput(0, t)].  [inr None]: the
    constant is built from an element of [dst_indices] that was never
    assigned, and C++ gives the program no meaning. *)
Definition Compile (E : Externals) (this : DataFormatVecPermuteOp)
           (input : XlaOp) : StatusOr (option XlaOp) :=
  let input_tensor_shape := dimensions input in
  let input_rank := dims input_tensor_shape in
  REQUIRE ((input_rank =? 1) || (input_rank =? 2))
  ELSE (InvalidArgument
          (StrCat2 "Input must be a vector or matrix, but got shape "
                   (DebugString E input_tensor_shape))) ;;
  REQUIRE (dim_size input_tensor_shape 0 =? 4)
  ELSE (InvalidArgument
          (StrCat2 "First dimension of input must be of size 4, but got shape "
                   (DebugString E input_tensor_shape))) ;;
  let emit : StatusOr (option XlaOp) :=
    ok (indices ← mapM id (dst_indices this);
        Some (xla.TorchIndexSelect E input (xla.ConstantR1 S32 indices))) in
  if input_rank =? 2 then
    REQUIRE (dim_size input_tensor_shape 1 =? 2)
    ELSE (InvalidArgument
            (StrCat2
               "Second dimension of 2D input must be of size 2, but got shape "
               (DebugString E input_tensor_shape))) ;;
    emit
  else emit.

End VecPermute.

(** ** Vocabulary of the statements *)

(** The position of the first occurrence of [c] in [l]: what the loops
    of both kernels look for. *)
Fixpoint position (c : ascii) (l : list ascii) : option nat :=
  match l with
  | [] => None
  | d :: l' => if Ascii.eqb d c then Some 0%nat else S <$> position c l'
  end.

(** The table entry for the symbol [c] of one format: its position in
    the other format [fmt]. *)
Definition index_in (fmt : string) (c : ascii) : nat :=
  default 0%nat (position c (chars fmt)).

Definition entry (fmt : string) (c : ascii) : Z := Z.of_nat (index_in fmt c).

(** The shapes that the vector-permute kernel accepts. *)
Definition valid_shape (t : XlaOp) : Prop :=
  dimensions t = [4] ∨ dimensions t = [4; 2].

(** The four-letter layout names that [FormatFromString] of
    [tensor_format.h] knows, and an environment whose validator accepts
    no other string of four characters. *)
Definition four_letter_layouts : list string :=
  ["NHWC"; "NCHW"; "HWNC"; "HWCN"].

Definition recognizes_layouts (E : Externals) : Prop :=
  ∀ fmt, FormatFromString E fmt = true → size fmt = 4%nat →
         fmt ∈ four_letter_layouts.

(** Each symbol of the format occurs once in it. *)
Definition distinct_symbols (fmt : string) : Prop := NoDup (chars fmt).

(** The two formats are arrangements of the same symbols. *)
Definition permutation_of (src dst : string) : Prop :=
  chars src ≡ₚ chars dst.

(** The element of [DimMap.src_indices] for the input element [v]:
    converted to [S32], plus four, modulo four. *)
Definition normalized (v : Z) : Z :=
  wrap S32 (Z.rem (wrap S32 (wrap S32 v + 4)) 4).

(** [needle] occurs in [hay]. *)
Fixpoint contains (needle hay : string) : bool :=
  String.prefix needle hay ||
  match hay with
  | EmptyString => false
  | String _ hay' => contains needle hay'
  end.

(** Unfold the bounds of the element types down to numerals. *)
Ltac int_bounds :=
  unfold min_value, max_value in *; cbn [bit_width] in *;
  change (2 ^ (32 - 1)) with 2147483648 in *;
  change (2 ^ (64 - 1)) with 9223372036854775808 in *;
  change (2 ^ 32) with 4294967296 in *;
  change (2 ^ 64) with 18446744073709551616 in *.

(** An instance of the externals, to run the kernels on examples: the
    four-letter layout names of [tensor_format.h], shapes printed as
    [TensorShape] prints them, and a gather that clamps. *)
Fixpoint show_dims (l : list Z) : string :=
  match l with
  | [] => EmptyString
  | [d] => pretty d
  | d :: l' => pretty d +:+ "," +:+ show_dims l'
  end.

Definition example_env : Externals :=
  {| FormatFromString s := bool_decide (s ∈ four_letter_layouts);
     DebugString shape := "[" +:+ show_dims shape +:+ "]";
     gather_out_of_bounds extent ix :=
       if ix <? 0 then 0%nat else Z.to_nat (extent - 1) |}.

Example dim_map_new_NHWC_NCHW :
  DimMap.new "NHWC" "NCHW" = ok {| DimMap.dst_idx_ := [0; 2; 3; 1] |}.
Proof. reflexivity. Qed.

Example dim_map_new_NHWC_NNHW :
  DimMap.new "NHWC" "NNHW"
  = inl (InvalidArgument "NHWC is not a permutation of NNHW").
Proof. reflexivity. Qed.

Example dim_map_compile_0123 :
  DimMap.Compile example_env {| DimMap.dst_idx_ := [0; 2; 3; 1] |}
    {| element_type := S64; dimensions := [4]; values := [0; 1; 2; 3] |}
  = {| element_type := S64; dimensions := [4]; values := [0; 2; 3; 1] |}.
Proof. vm_compute. reflexivity. Qed.

Example vec_permute_rank1 :
  VecPermute.Compile example_env
    {| VecPermute.src_format_ := "NHWC"; VecPermute.dst_format_ := "NCHW" |}
    {| element_type := S32; dimensions := [4]; values := [10; 20; 30; 40] |}
  = ok (Some {| element_type := S32; dimensions := [4];
                values := [10; 40; 20; 30] |}).
Proof. vm_compute. reflexivity. Qed.

Example vec_permute_rank2 :
  VecPermute.Compile example_env
    {| VecPermute.src_format_ := "NHWC"; VecPermute.dst_format_ := "NCHW" |}
    {| element_type := S32; dimensions := [4; 2];
       values := [10; 11; 20; 21; 30; 31; 40; 41] |}
  = ok (Some {| element_type := S32; dimensions := [4; 2];
                values := [10; 11; 40; 41; 20; 21; 30; 31] |}).
Proof. vm_compute. reflexivity. Qed.

Example vec_permute_rank3 :
  VecPermute.Compile example_env
    {| VecPermute.src_format_ := "NHWC"; VecPermute.dst_format_ := "NCHW" |}
    {| element_type := S32; dimensions := [4; 1; 1]; values := [1; 2; 3; 4] |}
  = inl (InvalidArgument
           "Input must be a vector or matrix, but got shape [4,1,1]").
Proof. vm_compute. reflexivity. Qed.

(** * Properties *)

Lemma length_chars (s : string) : length (chars s) = size s.
Proof. induction s as [|a s IH]; simpl; [done | by f_equal]. Qed.

(** ** The first position of a symbol in a format *)

Section Position.
Implicit Types (c d : ascii) (l : list ascii) (k : nat).

Lemma position_lookup c l k : position c l = Some k → l !! k = Some c.
Proof.
  revert k. induction l as [|d l IH]; intros k; simpl; [done|].
  destruct (Ascii.eqb_spec d c) as [->|Hne].
  - by intros [= <-].
  - destruct (position c l) as [k'|]; simpl; [|done].
    intros [= <-]. by apply IH.
Qed.

Lemma position_lt c l k : position c l = Some k → (k < length l)%nat.
Proof. intros H. apply lookup_lt_Some with c, position_lookup, H. Qed.

Lemma position_None c l : position c l = None ↔ c ∉ l.
Proof.
  induction l as [|d l IH]; simpl.
  - split; [intros _; apply not_elem_of_nil | done].
  - rewrite not_elem_of_cons. destruct (Ascii.eqb_spec d c) as [->|Hne].
    + split; [done | by intros [? _]].
    + destruct (position c l); simpl.
      * split; [done | intros [_ H]; by apply IH in H].
      * split; [intros _; split; [congruence | by apply IH] | done].
Qed.

Lemma position_elem_of c l : c ∈ l → is_Some (position c l).
Proof.
  intros Hin. destruct (position c l) eqn:E; [by eexists|].
  by apply position_None in E.
Qed.

Lemma position_NoDup c l k :
  NoDup l → l !! k = Some c → position c l = Some k.
Proof.
  intros Hnd Hk. destruct (position_elem_of c l) as [k' Hk'].
  { by eapply list_elem_of_lookup_2. }
  rewrite Hk'. f_equal.
  eapply NoDup_lookup; eauto using position_lookup.
Qed.
End Position.

(** ** Construction of the dimension-index-remap kernel *)

Section DimMapConstruction.
Variables src_format dst_format : string.
Let dst := chars dst_format.

Lemma dim_map_inner_loop_position l j c i arr :
  DimMap.inner_loop l j c i arr =
  match position c l with
  | Some k => <[i := Z.of_nat (j + k)]> arr
  | None => arr
  end.
Proof.
  revert j. induction l as [|d l IH]; intros j; simpl; [done|].
  destruct (Ascii.eqb d c).
  - by rewrite Nat.add_0_r.
  - rewrite IH. destruct (position c l) as [k|]; simpl; [|done].
    do 2 f_equal. lia.
Qed.

(** The outer loop in closed form: it fails at the first source symbol
    that the destination lacks, and otherwise fills one entry per
    source symbol. *)
Lemma dim_map_outer_loop_eq src i arr :
  length arr = (i + length src)%nat →
  (∀ k, (i ≤ k)%nat → (k < length arr)%nat → arr !! k = Some (-1)) →
  DimMap.outer_loop src_format dst_format src i arr =
  if decide (Forall (λ c, c ∈ dst) src)
  then ok (take i arr ++ (entry dst_format <$> src))
  else inl (InvalidArgument
              (StrCat3 src_format " is not a permutation of " dst_format)).
Proof.
  revert i arr. induction src as [|c src IH]; intros i arr Hlen Hinit.
  - simpl in Hlen. cbn [DimMap.outer_loop fmap list_fmap].
    rewrite decide_True by constructor.
    rewrite app_nil_r, firstn_all2 by lia. done.
  - simpl in Hlen. cbn [DimMap.outer_loop].
    rewrite dim_map_inner_loop_position. fold dst.
    destruct (position c dst) as [p|] eqn:Hp.
    + assert (Hin : c ∈ dst).
      { eapply list_elem_of_lookup_2, position_lookup, Hp. }
      rewrite list_lookup_total_insert_eq by lia.
      rewrite (proj2 (Z.eqb_neq _ _)) by lia.
      cbn [negb OP_REQUIRES].
      rewrite IH.
      * destruct (decide (Forall (λ c0, c0 ∈ dst) src)) as [Hall|Hall].
        -- rewrite decide_True by (by constructor).
           rewrite (take_S_r _ _ (Z.of_nat (0 + p)))
             by (apply list_lookup_insert_eq; lia).
           rewrite take_insert_ge by lia.
           rewrite <- app_assoc. simpl. unfold entry, index_in at 2. fold dst. rewrite Hp. done.
        -- rewrite decide_False; [done|].
           intros H. by apply Forall_cons in H as [_ H].
      * rewrite length_insert. lia.
      * intros k Hk1 Hk2. rewrite length_insert in Hk2.
        rewrite list_lookup_insert_ne by lia. apply Hinit; lia.
    + rewrite (list_lookup_total_correct arr i (-1)) by (apply Hinit; lia).
      cbn [Z.eqb negb OP_REQUIRES].
      rewrite decide_False; [done|].
      intros H. apply Forall_cons in H as [H _].
      by apply position_None in Hp.
Qed.

(** The constructor in closed form. *)
Lemma dim_map_new_eq :
  DimMap.new src_format dst_format =
  if negb (Nat.eqb (size src_format) 4) then
    inl (InvalidArgument
           (StrCat2 "Source format must of length 4, received src_format = "
                    src_format))
  else if negb (Nat.eqb (size dst_format) 4) then
    inl (InvalidArgument
           (StrCat2
              "Destination format must of length 4, received dst_format = "
              dst_format))
  else if decide (Forall (λ c, c ∈ dst) (chars src_format)) then
    ok {| DimMap.dst_idx_ := entry dst_format <$> chars src_format |}
  else
    inl (InvalidArgument
           (StrCat3 src_format " is not a permutation of " dst_format)).
Proof.
  unfold DimMap.new, OP_REQUIRES.
  destruct (Nat.eqb_spec (size src_format) 4) as [Hs|]; [|done].
  destruct (Nat.eqb_spec (size dst_format) 4) as [Hd|]; [|done].
  cbn [negb].
  rewrite dim_map_outer_loop_eq.
  - by destruct (decide _).
  - rewrite length_chars, Hs. done.
  - intros k _ Hk. simpl in Hk.
    do 4 (destruct k as [|k]; [done|]). simpl in Hk. lia.
Qed.
End DimMapConstruction.

(** ** The value emitted by the dimension-index-remap kernel *)

Section DimMapCompile.
Context (E : Externals).

Lemma wrap_small ty z : min_value ty <= z <= max_value ty → wrap ty z = z.
Proof.
  unfold wrap, min_value, max_value. intros H.
  destruct ty; cbn [bit_width] in *;
    rewrite Z.mod_small; lia.
Qed.

Lemma wrap_range ty z : min_value ty <= wrap ty z <= max_value ty.
Proof.
  unfold wrap, min_value, max_value.
  destruct ty; cbn [bit_width];
    match goal with |- context [?a mod ?b] =>
      pose proof (Z.mod_pos_bound a b ltac:(lia)) end; lia.
Qed.

Lemma wrap_add_multiple ty z n : wrap ty (z + n * 2 ^ bit_width ty) = wrap ty z.
Proof.
  unfold wrap. f_equal.
  replace (z + n * 2 ^ bit_width ty + 2 ^ (bit_width ty - 1))
    with (z + 2 ^ (bit_width ty - 1) + n * 2 ^ bit_width ty) by lia.
  apply Z.mod_add. destruct ty; cbn [bit_width]; lia.
Qed.

Lemma src_indices_eq input :
  DimMap.src_indices input =
  {| element_type := S32;
     dimensions := dimensions input;
     values := normalized <$> values input |}.
Proof.
  unfold DimMap.src_indices, xla.Rem, xla.Add, xla.binary,
    xla.ConvertElementType, xla.ConstantR0, xla.broadcast_to.
  cbn [element_type dimensions values]. f_equal.
  rewrite !zip_with_replicate_r_eq.
  - rewrite <- !list_fmap_compose. done.
  - done.
  - by rewrite length_fmap, length_zip_with, length_fmap, length_replicate,
      Nat.min_id.
Qed.

(** Without overflow of [v + 4], the normalized index is the truncated
    remainder of [v + 4] by 4. *)
Lemma normalized_rem v :
  min_value S32 <= v <= max_value S32 - 4 → normalized v = Z.rem (v + 4) 4.
Proof.
  intros H. unfold normalized.
  rewrite (wrap_small S32 v) by (int_bounds; lia).
  rewrite (wrap_small S32 (v + 4)) by (int_bounds; lia).
  pose proof (Z.rem_bound_abs (v + 4) 4 ltac:(lia)).
  apply wrap_small. int_bounds; lia.
Qed.

Lemma normalized_small v :
  -4 <= v <= max_value S32 - 4 → normalized v = (v + 4) mod 4.
Proof.
  intros H. rewrite normalized_rem by (int_bounds; lia).
  apply Z.rem_mod_nonneg; lia.
Qed.

(** A slice of a rank-1 constant is one element. *)
Lemma row_ConstantR1 ty (l : list Z) i x :
  l !! i = Some x → row (xla.ConstantR1 ty l) i = [x].
Proof.
  intros H. unfold row, row_size, xla.ConstantR1.
  cbn [dimensions values tail foldr]. change (Z.to_nat 1) with 1%nat.
  rewrite Nat.mul_1_r.
  rewrite <- (take_drop_middle l i x H) at 1.
  rewrite drop_app_length' by (rewrite length_take; apply lookup_lt_Some in H; lia).
  done.
Qed.

(** The emitted value when every normalized index selects a table entry. *)
Lemma dim_map_compile_in_range this input :
  Forall (λ v, 0 <= normalized v < Z.of_nat (length (DimMap.dst_idx_ this)))
         (values input) →
  DimMap.Compile E this input =
  {| element_type := element_type input;
     dimensions := dimensions input;
     values := (λ v, wrap (element_type input)
                       (DimMap.dst_idx_ this !!! Z.to_nat (normalized v)))
               <$> values input |}.
Proof.
  intros Hall. unfold DimMap.Compile. rewrite src_indices_eq.
  unfold xla.ConvertElementType, xla.TorchIndexSelect.
  cbn [element_type dimensions values xla.ConstantR1 tail head default].
  rewrite app_nil_r. f_equal.
  induction Hall as [|v vs Hv _ IH]; [done|].
  cbn [fmap list_fmap concat]. fold (@fmap list _ Z Z).
  rewrite fmap_app. cbn [fmap list_fmap] in IH |- *. rewrite IH. clear IH.
  unfold xla.resolve, id.
  destruct Hv as [Hv1 Hv2].
  rewrite (proj2 (Z.leb_le _ _) Hv1), (proj2 (Z.ltb_lt _ _) Hv2). cbn [andb].
  destruct (lookup_lt_is_Some_2 (DimMap.dst_idx_ this) (Z.to_nat (normalized v)))
    as [x Hx]; [lia|].
  rewrite (row_ConstantR1 _ _ _ x Hx), (list_lookup_total_correct _ _ _ Hx).
  done.
Qed.

End DimMapCompile.

(** ** The index table of the vector-permute kernel *)

Section VecPermuteTable.
Implicit Types (dst src : list ascii) (arr : list (option Z)).

Lemma vec_permute_inner_loop_position dst j c i arr :
  VecPermute.inner_loop dst j c i arr =
  match position c dst with
  | Some k => <[(j + k)%nat := Some (Z.of_nat i)]> arr
  | None => arr
  end.
Proof.
  revert j. induction dst as [|d dst IH]; intros j; simpl; [done|].
  rewrite Ascii.eqb_sym. destruct (Ascii.eqb d c).
  - by rewrite Nat.add_0_r.
  - rewrite IH. destruct (position c dst) as [k|]; simpl; [|done].
    f_equal. lia.
Qed.

Lemma vec_permute_outer_loop_length dst src i arr :
  length (VecPermute.outer_loop dst src i arr) = length arr.
Proof.
  revert i arr. induction src as [|c src IH]; intros i arr; simpl; [done|].
  rewrite IH, vec_permute_inner_loop_position.
  destruct (position c dst); [apply length_insert | done].
Qed.

(** An entry that no source symbol selects keeps its content. *)
Lemma vec_permute_outer_loop_other dst src i arr j :
  (∀ c, c ∈ src → position c dst ≠ Some j) →
  VecPermute.outer_loop dst src i arr !! j = arr !! j.
Proof.
  revert i arr. induction src as [|c src IH]; intros i arr Hno; simpl; [done|].
  rewrite IH by (intros c' Hc'; apply Hno; by right).
  rewrite vec_permute_inner_loop_position.
  destruct (position c dst) as [k|] eqn:Hk; [|done].
  apply list_lookup_insert_ne. simpl. intros ->.
  by apply (Hno c); [left|].
Qed.

(** The entry selected by the source symbol at position [k] holds [k]. *)
Lemma vec_permute_outer_loop_hit dst src i arr k c j :
  NoDup src → NoDup dst →
  src !! k = Some c → position c dst = Some j → (j < length arr)%nat →
  VecPermute.outer_loop dst src i arr !! j = Some (Some (Z.of_nat (i + k))).
Proof.
  intros Hsrc Hdst. revert i arr k.
  induction Hsrc as [|c0 src Hnotin Hnd IH]; intros i arr k Hk Hpos Hj; [done|].
  cbn [VecPermute.outer_loop]. rewrite vec_permute_inner_loop_position.
  destruct k as [|k]; simpl in Hk.
  - injection Hk as ->. rewrite Hpos. simpl.
    rewrite vec_permute_outer_loop_other.
    + rewrite list_lookup_insert_eq by done. by rewrite Nat.add_0_r.
    + intros c' Hc' Hpos'. apply position_lookup in Hpos, Hpos'.
      rewrite Hpos in Hpos'. injection Hpos' as ->. done.
  - replace (i + S k)%nat with (S i + k)%nat by lia.
    apply IH; [done..|].
    destruct (position c0 dst); [by rewrite length_insert | done].
Qed.

(** For two arrangements of the same four distinct symbols the loops
    assign every entry: entry [j] is the position in the source format
    of the destination's [j]-th symbol. *)
Lemma vec_permute_dst_indices this :
  size (VecPermute.src_format_ this) = 4%nat →
  distinct_symbols (VecPermute.src_format_ this) →
  permutation_of (VecPermute.src_format_ this) (VecPermute.dst_format_ this) →
  mapM id (VecPermute.dst_indices this) =
  Some (entry (VecPermute.src_format_ this)
          <$> chars (VecPermute.dst_format_ this)).
Proof.
  unfold distinct_symbols, permutation_of, VecPermute.dst_indices.
  set (src := chars (VecPermute.src_format_ this)).
  set (dst := chars (VecPermute.dst_format_ this)).
  intros Hsize Hnd Hperm.
  assert (Hlen : length dst = 4%nat).
  { rewrite <- Hperm. unfold src. by rewrite length_chars. }
  assert (Hnd' : NoDup dst) by (by rewrite <- Hperm).
  apply mapM_Some_2, Forall2_same_length_lookup_2.
  { rewrite vec_permute_outer_loop_length, length_fmap. by rewrite Hlen. }
  intros j x y Hx Hy.
  apply list_lookup_fmap_Some_1 in Hy as (d & -> & Hd).
  assert (Hin : d ∈ src).
  { rewrite Hperm. by eapply list_elem_of_lookup_2. }
  destruct (position_elem_of _ _ Hin) as [i Hi].
  rewrite (vec_permute_outer_loop_hit dst src 0 _ i d j) in Hx.
  - injection Hx as <-. unfold entry, index_in. fold src. by rewrite Hi.
  - done.
  - done.
  - by apply position_lookup.
  - by apply position_NoDup.
  - simpl. apply lookup_lt_Some in Hd. lia.
Qed.

End VecPermuteTable.

(** ** The value emitted by the vector-permute kernel *)

Section Gather.
Context (E : Externals).

(** Consecutive chunks of equal length are found again by position. *)
Lemma take_drop_concat (ls : list (list Z)) (n j : nat) (l : list Z) :
  Forall (λ l, length l = n) ls → ls !! j = Some l →
  take n (drop (j * n) (concat ls)) = l.
Proof.
  intros Hall. revert j.
  induction Hall as [|a ls Ha _ IH]; intros j Hj; [done|].
  destruct j as [|j]; simpl in Hj |- *.
  - injection Hj as ->. by apply take_app_length'.
  - rewrite drop_app_add' by done. by apply IH.
Qed.

Lemma length_row (t : XlaOp) (n i : nat) :
  length (values t) = (n * row_size t)%nat → (i < n)%nat →
  length (row t i) = row_size t.
Proof.
  intros Hlen Hi. unfold row. rewrite length_take, length_drop, Hlen. nia.
Qed.

(** The rows of an array, in order, are the array. *)
Lemma concat_rows (t : XlaOp) (n : nat) :
  length (values t) = (n * row_size t)%nat →
  concat (row t <$> seq 0 n) = values t.
Proof.
  intros Hlen. unfold row.
  assert (H : ∀ m k, concat ((λ i, take (row_size t) (drop (i * row_size t) (values t)))
                               <$> seq k m)
                     = take (m * row_size t) (drop (k * row_size t) (values t))).
  { induction m as [|m IH]; intros k; [done|].
    cbn [seq fmap list_fmap concat]. fold (@fmap list _ nat (list Z)).
    rewrite IH. cbn [Nat.mul].
    rewrite <- take_take_drop, drop_drop. do 3 f_equal. lia. }
  rewrite H, drop_0. apply take_ge. lia.
Qed.

(** Gathering with indices inside the operand concatenates its rows. *)
Lemma torch_index_select_rows (input : XlaOp) (n : Z) (idx : list nat) :
  head (dimensions input) = Some n →
  Forall (λ i, Z.of_nat i < n) idx →
  xla.TorchIndexSelect E input (xla.ConstantR1 S32 (Z.of_nat <$> idx))
  = {| element_type := element_type input;
       dimensions := [Z.of_nat (length idx)] ++ tail (dimensions input);
       values := concat (row input <$> idx) |}.
Proof.
  intros Hn Hall. unfold xla.TorchIndexSelect, xla.ConstantR1.
  cbn [values dimensions]. rewrite Hn, length_fmap.
  cbn [default from_option id]. do 2 f_equal.
  rewrite <- list_fmap_compose. apply Forall_fmap_ext_1.
  eapply Forall_impl; [exact Hall|]. intros i Hi. cbn [compose].
  unfold xla.resolve.
  rewrite (proj2 (Z.leb_le 0 (Z.of_nat i))) by lia.
  rewrite (proj2 (Z.ltb_lt _ _) Hi). cbn [andb]. by rewrite Nat2Z.id.
Qed.

Lemma valid_shape_rows (input : XlaOp) :
  well_formed input → valid_shape input →
  length (values input) = (4 * row_size input)%nat ∧
  head (dimensions input) = Some 4 ∧
  [4] ++ tail (dimensions input) = dimensions input.
Proof.
  intros [_ Hlen] Hshape. unfold row_size.
  destruct Hshape as [Hd|Hd]; rewrite Hd in Hlen |- *;
    cbn [foldr tail head] in *; (split; [lia | done]).
Qed.

End Gather.

Section FormatPermutation.
Implicit Types (fmt src dst : string) (c : ascii).

Lemma index_in_elem_of fmt c :
  c ∈ chars fmt → chars fmt !! index_in fmt c = Some c.
Proof.
  intros Hin. unfold index_in.
  destruct (position_elem_of _ _ Hin) as [k Hk]. rewrite Hk.
  by apply position_lookup.
Qed.

Lemma index_in_lt fmt c : c ∈ chars fmt → (index_in fmt c < size fmt)%nat.
Proof.
  intros Hin. rewrite <- length_chars.
  eapply lookup_lt_Some, index_in_elem_of, Hin.
Qed.

Lemma index_in_lookup fmt c i :
  distinct_symbols fmt → chars fmt !! i = Some c → index_in fmt c = i.
Proof.
  intros Hnd Hi. unfold index_in. by rewrite (position_NoDup c _ i).
Qed.

Lemma permutation_of_sym src dst : permutation_of src dst → permutation_of dst src.
Proof. unfold permutation_of. by intros ->. Qed.

Lemma permutation_of_distinct src dst :
  distinct_symbols src → permutation_of src dst → distinct_symbols dst.
Proof. unfold distinct_symbols, permutation_of. by intros ? <-. Qed.

Lemma permutation_of_size src dst :
  permutation_of src dst → size dst = size src.
Proof.
  unfold permutation_of. intros H. rewrite <- !length_chars. by rewrite H.
Qed.

(** Looking a symbol of [src] up in [dst] and the symbol found there
    back up in [src] returns to where it stood. *)
Lemma index_in_round_trip src dst i c :
  distinct_symbols src → permutation_of src dst →
  chars src !! i = Some c →
  ∃ d, chars dst !! index_in dst c = Some d ∧ index_in src d = i.
Proof.
  intros Hnd Hperm Hi. exists c. split.
  - apply index_in_elem_of. unfold permutation_of in Hperm.
    rewrite <- Hperm. by eapply list_elem_of_lookup_2.
  - by apply index_in_lookup.
Qed.

End FormatPermutation.

Section VecPermuteCompile.
Context (E : Externals).

(** On an accepted shape, and for two arrangements of the same four
    distinct symbols, the kernel emits the rows of its input in the
    order of the index table. *)
Lemma vec_permute_compile_valid this input :
  size (VecPermute.src_format_ this) = 4%nat →
  distinct_symbols (VecPermute.src_format_ this) →
  permutation_of (VecPermute.src_format_ this) (VecPermute.dst_format_ this) →
  valid_shape input →
  VecPermute.Compile E this input =
  ok (Some {| element_type := element_type input;
              dimensions := dimensions input;
              values := concat (row input <$>
                                  (index_in (VecPermute.src_format_ this)
                                     <$> chars (VecPermute.dst_format_ this))) |}).
Proof.
  intros Hsize Hnd Hperm Hshape.
  assert (Hemit :
    (indices ← mapM id (VecPermute.dst_indices this);
     Some (xla.TorchIndexSelect E input (xla.ConstantR1 S32 indices)))
    = Some {| element_type := element_type input;
              dimensions := dimensions input;
              values := concat (row input <$>
                                  (index_in (VecPermute.src_format_ this)
                                     <$> chars (VecPermute.dst_format_ this))) |}).
  { rewrite (vec_permute_dst_indices this Hsize Hnd Hperm). cbn [mbind option_bind].
    change (entry (VecPermute.src_format_ this))
      with (Z.of_nat ∘ index_in (VecPermute.src_format_ this)).
    rewrite list_fmap_compose.
    rewrite (torch_index_select_rows E input 4).
    - rewrite length_fmap, length_chars, (permutation_of_size _ _ Hperm), Hsize.
      do 2 f_equal. by destruct Hshape as [-> | ->].
    - by destruct Hshape as [-> | ->].
    - apply Forall_fmap, Forall_forall. intros d Hd. cbn [compose].
      assert (index_in (VecPermute.src_format_ this) d
              < size (VecPermute.src_format_ this))%nat; [|lia].
      apply index_in_lt. unfold permutation_of in Hperm. by rewrite Hperm. }
  unfold VecPermute.Compile. rewrite Hemit.
  by destruct Hshape as [-> | ->].
Qed.

(** Row [j] of the output is the row of the input at the position, in
    the source format, of the destination's [j]-th symbol. *)
Lemma vec_permute_output_row this input j d :
  well_formed input → valid_shape input →
  size (VecPermute.src_format_ this) = 4%nat →
  distinct_symbols (VecPermute.src_format_ this) →
  permutation_of (VecPermute.src_format_ this) (VecPermute.dst_format_ this) →
  chars (VecPermute.dst_format_ this) !! j = Some d →
  row {| element_type := element_type input;
         dimensions := dimensions input;
         values := concat (row input <$>
                             (index_in (VecPermute.src_format_ this)
                                <$> chars (VecPermute.dst_format_ this))) |} j
  = row input (index_in (VecPermute.src_format_ this) d).
Proof.
  intros Hwf Hshape Hsize Hnd Hperm Hj.
  destruct (valid_shape_rows input Hwf Hshape) as (Hlen & _ & _).
  unfold row at 1. cbn [values]. unfold row_size at 1 2. cbn [dimensions].
  fold (row_size input).
  apply take_drop_concat.
  - apply Forall_fmap, Forall_fmap, Forall_forall. intros c Hc. cbn [compose].
    apply (length_row input 4); [done|].
    rewrite <- Hsize. apply index_in_lt.
    unfold permutation_of in Hperm. by rewrite Hperm.
  - by rewrite !list_lookup_fmap, Hj.
Qed.

End VecPermuteCompile.

(** ** What the constructor of the dimension-index-remap kernel accepts *)

Section DimMapAccepts.
Variables src_format dst_format : string.

Lemma dim_map_new_ok this :
  DimMap.new src_format dst_format = ok this →
  size src_format = 4%nat ∧ size dst_format = 4%nat ∧
  Forall (λ c, c ∈ chars dst_format) (chars src_format) ∧
  DimMap.dst_idx_ this = entry dst_format <$> chars src_format.
Proof.
  rewrite dim_map_new_eq.
  destruct (Nat.eqb_spec (size src_format) 4); [|done].
  destruct (Nat.eqb_spec (size dst_format) 4); [|done].
  cbn [negb]. destruct (decide _) as [Hall|]; [|done].
  intros [= <-]. done.
Qed.

Lemma dim_map_new_accepts :
  size src_format = 4%nat → size dst_format = 4%nat →
  Forall (λ c, c ∈ chars dst_format) (chars src_format) →
  DimMap.new src_format dst_format =
  ok {| DimMap.dst_idx_ := entry dst_format <$> chars src_format |}.
Proof.
  intros Hs Hd Hall. rewrite dim_map_new_eq, Hs, Hd. cbn [Nat.eqb negb].
  by rewrite decide_True.
Qed.

(** The three ways in which the constructor fails, with their messages. *)
Lemma dim_map_new_failure st :
  DimMap.new src_format dst_format = inl st →
  (size src_format ≠ 4%nat ∧
   error_message st =
   StrCat2 "Source format must of length 4, received src_format = " src_format)
  ∨ (size dst_format ≠ 4%nat ∧
     error_message st =
     StrCat2 "Destination format must of length 4, received dst_format = "
             dst_format)
  ∨ (¬ Forall (λ c, c ∈ chars dst_format) (chars src_format) ∧
     error_message st =
     StrCat3 src_format " is not a permutation of " dst_format).
Proof.
  rewrite dim_map_new_eq.
  destruct (Nat.eqb_spec (size src_format) 4); cbn [negb].
  2: { intros [= <-]. by left. }
  destruct (Nat.eqb_spec (size dst_format) 4); cbn [negb].
  2: { intros [= <-]. right. by left. }
  destruct (decide _) as [|Hno]; [done|].
  intros [= <-]. right. by right.
Qed.

(** Every entry of the table is a position of the destination format. *)
Lemma dim_map_table_range this :
  DimMap.new src_format dst_format = ok this →
  length (DimMap.dst_idx_ this) = 4%nat ∧
  Forall (λ x, 0 <= x < 4) (DimMap.dst_idx_ this).
Proof.
  intros (Hs & Hd & Hall & ->)%dim_map_new_ok. split.
  - by rewrite length_fmap, length_chars.
  - apply Forall_fmap. eapply Forall_impl; [exact Hall|].
    intros c Hc. cbn [compose]. unfold entry.
    pose proof (index_in_lt dst_format c Hc). lia.
Qed.

(** The entries are pairwise distinct when the source symbols are. *)
Lemma dim_map_table_distinct this :
  distinct_symbols src_format →
  DimMap.new src_format dst_format = ok this →
  NoDup (DimMap.dst_idx_ this).
Proof.
  intros Hnd (Hs & Hd & Hall & ->)%dim_map_new_ok.
  apply NoDup_fmap_2_strong; [|done].
  intros x y Hx Hy Heq. unfold entry in Heq. apply Nat2Z.inj in Heq.
  rewrite Forall_forall in Hall.
  pose proof (index_in_elem_of dst_format x (Hall x Hx)) as H1.
  pose proof (index_in_elem_of dst_format y (Hall y Hy)) as H2.
  rewrite Heq in H1. congruence.
Qed.

(** A source of four distinct symbols is only accepted together with
    an arrangement of the same symbols. *)
Lemma dim_map_new_distinct_source this :
  distinct_symbols src_format →
  DimMap.new src_format dst_format = ok this →
  permutation_of src_format dst_format.
Proof.
  intros Hnd (Hs & Hd & Hall & _)%dim_map_new_ok.
  apply submseteq_length_Permutation.
  - apply NoDup_submseteq; [done|]. by apply Forall_forall.
  - rewrite !length_chars. lia.
Qed.

Lemma dim_map_new_permutation :
  size src_format = 4%nat → permutation_of src_format dst_format →
  DimMap.new src_format dst_format =
  ok {| DimMap.dst_idx_ := entry dst_format <$> chars src_format |}.
Proof.
  intros Hs Hperm. apply dim_map_new_accepts; [done| |].
  - by rewrite (permutation_of_size _ _ Hperm).
  - apply Forall_forall. intros c Hc. unfold permutation_of in Hperm.
    by rewrite <- Hperm.
Qed.

End DimMapAccepts.

(** ** The claims *)

(** C1 (the code departs from the claim): [NNHW] repeats a symbol and so
    is no arrangement of [NHWC], but each of its symbols occurs in
    [NHWC]; the constructor finds a match for every source position and
    succeeds, where the claim requires an invalid-argument failure. *)
Theorem C1_duplicate_source_symbol_accepted :
  size "NNHW" = 4%nat ∧ size "NHWC" = 4%nat ∧
  ¬ permutation_of "NNHW" "NHWC" ∧
  DimMap.new "NNHW" "NHWC" = ok {| DimMap.dst_idx_ := [0; 0; 1; 2] |}.
Proof.
  split; [done|]. split; [done|]. split; [|reflexivity].
  unfold permutation_of. intros Hperm.
  assert (Hin : ("C"%char : ascii) ∈ chars "NNHW").
  { rewrite Hperm. apply list_elem_of_In. simpl. tauto. }
  apply list_elem_of_In in Hin. simpl in Hin.
  repeat destruct Hin as [Hin|Hin]; try discriminate Hin. done.
Qed.

(** C2 (the code departs from the claim): for the accepted pair
    [NNHW], [NHWC] the table is [0; 0; 1; 2]; its first two entries
    coincide, so it is not a bijection on the four positions. *)
Theorem C2_accepted_table_not_injective :
  ∃ this, DimMap.new "NNHW" "NHWC" = ok this ∧
          DimMap.dst_idx_ this = [0; 0; 1; 2] ∧
          ¬ NoDup (DimMap.dst_idx_ this).
Proof.
  eexists. split; [reflexivity|]. split; [reflexivity|].
  cbn [DimMap.dst_idx_]. intros Hnd. apply NoDup_cons_1_1 in Hnd.
  apply Hnd. left.
Qed.

Lemma normalized_in_table v : -4 <= v < 4 →
  normalized v = (v + 4) mod 4 ∧ 0 <= (v + 4) mod 4 < 4.
Proof.
  intros H. split.
  - apply normalized_small. int_bounds. lia.
  - apply Z.mod_pos_bound. lia.
Qed.

(** C3: built for NHWC and NCHW, the kernel sends every input element
    [i] in [0,4) to the position in NCHW of the [i]-th symbol of NHWC,
    and keeps the shape and the element type of its input; the input
    [0,1,2,3] gives [0,2,3,1]. *)
Theorem C3_dim_map_NHWC_to_NCHW (E : Externals) this input :
  DimMap.new "NHWC" "NCHW" = ok this →
  Forall (λ i, 0 <= i < 4) (values input) →
  element_type (DimMap.Compile E this input) = element_type input ∧
  dimensions (DimMap.Compile E this input) = dimensions input ∧
  Forall2 (λ i o, 0 <= o < 4 ∧
                  chars "NCHW" !! Z.to_nat o = chars "NHWC" !! Z.to_nat i)
          (values input) (values (DimMap.Compile E this input)) ∧
  (values input = [0; 1; 2; 3] →
   values (DimMap.Compile E this input) = [0; 2; 3; 1]).
Proof.
  intros Hnew Hall.
  assert (Hthis : this = {| DimMap.dst_idx_ := [0; 2; 3; 1] |}).
  { change (DimMap.new "NHWC" "NCHW")
      with (ok {| DimMap.dst_idx_ := [0; 2; 3; 1] |}) in Hnew.
    by injection Hnew. }
  subst this.
  assert (Hnorm : ∀ i, 0 <= i < 4 → normalized i = i).
  { intros i Hi. destruct (normalized_in_table i) as [-> _]; [lia|].
    replace (i + 4) with (i + 1 * 4) by lia.
    rewrite Z.mod_add by lia. apply Z.mod_small. lia. }
  rewrite dim_map_compile_in_range.
  2: { eapply Forall_impl; [exact Hall|]. intros i Hi. cbn beta in Hi |- *.
       rewrite (Hnorm i Hi). cbn [DimMap.dst_idx_ length]. lia. }
  cbn [element_type dimensions values DimMap.dst_idx_].
  split; [done|]. split; [done|]. split.
  - apply Forall2_fmap_r, Forall_Forall2_diag.
    eapply Forall_impl; [exact Hall|]. intros i Hi. cbn beta in Hi.
    cbn [compose]. rewrite (Hnorm i Hi).
    assert (Hcases : i = 0 ∨ i = 1 ∨ i = 2 ∨ i = 3) by lia.
    destruct (element_type input);
      destruct Hcases as [-> | [-> | [-> | ->]]]; vm_compute; intuition congruence.
  - intros ->. by destruct (element_type input).
Qed.

Lemma C3_witness :
  Forall (λ i, 0 <= i < 4) [0; 1; 2; 3] ∧
  values (DimMap.Compile example_env {| DimMap.dst_idx_ := [0; 2; 3; 1] |}
            {| element_type := S64; dimensions := [4];
               values := [0; 1; 2; 3] |})
  = [0; 2; 3; 1].
Proof.
  assert (H : Forall (λ i, 0 <= i < 4) [0; 1; 2; 3])
    by (repeat (constructor; [lia|]); constructor).
  split; [exact H|].
  exact (proj2 (proj2 (proj2
           (C3_dim_map_NHWC_to_NCHW example_env
              {| DimMap.dst_idx_ := [0; 2; 3; 1] |}
              {| element_type := S64; dimensions := [4];
                 values := [0; 1; 2; 3] |}
              eq_refl H))) eq_refl).
Defined.

(** The emitted value is computed element by element: the output for
    two lists of elements in a row is the two outputs in a row. *)
Lemma dim_map_compile_app (E : Externals) this ty dims (l1 l2 : list Z) :
  values (DimMap.Compile E this
            {| element_type := ty; dimensions := dims; values := l1 ++ l2 |})
  = values (DimMap.Compile E this
              {| element_type := ty; dimensions := dims; values := l1 |})
    ++ values (DimMap.Compile E this
                 {| element_type := ty; dimensions := dims; values := l2 |}).
Proof.
  unfold DimMap.Compile. rewrite !src_indices_eq.
  unfold xla.ConvertElementType, xla.TorchIndexSelect.
  cbn [element_type dimensions values].
  by rewrite !fmap_app, concat_app, fmap_app.
Qed.

(** The output element at position [i], when the normalized indices up
    to and including position [i] select table entries.  (What the
    backend's gather gives for other indices is left open, so only the
    elements before position [i] matter for where its output stands.) *)
Lemma dim_map_compile_lookup (E : Externals) this input i v :
  values input !! i = Some v →
  Forall (λ u, 0 <= normalized u < Z.of_nat (length (DimMap.dst_idx_ this)))
         (take i (values input)) →
  0 <= normalized v < Z.of_nat (length (DimMap.dst_idx_ this)) →
  values (DimMap.Compile E this input) !! i
  = Some (wrap (element_type input)
            (DimMap.dst_idx_ this !!! Z.to_nat (normalized v))).
Proof.
  destruct input as [ty dims vs]. cbn [values element_type].
  intros Hi Hpre Hv.
  pose proof (take_drop_middle vs i v Hi) as Hsplit.
  rewrite <- Hsplit at 1.
  rewrite dim_map_compile_app.
  change (v :: drop (S i) vs) with ([v] ++ drop (S i) vs).
  rewrite (dim_map_compile_app E this ty dims [v] (drop (S i) vs)).
  rewrite (dim_map_compile_in_range E this
             {| element_type := ty; dimensions := dims;
                values := take i vs |}) by done.
  rewrite (dim_map_compile_in_range E this
             {| element_type := ty; dimensions := dims; values := [v] |})
    by (by constructor).
  cbn [values element_type].
  rewrite lookup_app_r; rewrite length_fmap, length_take_le;
    try (apply lookup_lt_Some in Hi; lia).
  by rewrite Nat.sub_diag.
Qed.

(** C4: an input element [v] in [-4,4) is normalized to
    [(v + 4) mod 4], a position of the table, whatever the other
    elements of the input are, and this is the index that the table
    lookup of [Compile] receives; the output element is the table entry
    there.  For NHWC and NCHW the inputs [-1,-2,-3,-4] and [3,2,1,0]
    give the same output. *)
Theorem C4_negative_indices_wrap (E : Externals)
        src_format dst_format this input i v :
  DimMap.new src_format dst_format = ok this →
  values input !! i = Some v →
  -4 <= v < 4 →
  values (DimMap.src_indices input) !! i = Some ((v + 4) mod 4) ∧
  0 <= (v + 4) mod 4 < 4 ∧
  DimMap.Compile E this input
  = xla.ConvertElementType
      (xla.TorchIndexSelect E (xla.ConstantR1 S32 (DimMap.dst_idx_ this))
                            (DimMap.src_indices input))
      (element_type input) ∧
  xla.resolve E (Z.of_nat (length (DimMap.dst_idx_ this))) ((v + 4) mod 4)
  = Z.to_nat ((v + 4) mod 4) ∧
  (Forall (λ u, -4 <= u < 4) (take i (values input)) →
   values (DimMap.Compile E this input) !! i
   = Some (DimMap.dst_idx_ this !!! Z.to_nat ((v + 4) mod 4))) ∧
  (∀ that ty,
     DimMap.new "NHWC" "NCHW" = ok that →
     DimMap.Compile E that {| element_type := ty; dimensions := [4];
                              values := [-1; -2; -3; -4] |}
     = DimMap.Compile E that {| element_type := ty; dimensions := [4];
                                values := [3; 2; 1; 0] |}).
Proof.
  intros Hnew Hi Hv.
  destruct (dim_map_table_range _ _ _ Hnew) as [Hlen Hrange].
  destruct (normalized_in_table v Hv) as [Hnorm Hix].
  split; [|split; [|split; [|split; [|split]]]].
  - rewrite src_indices_eq. cbn [values].
    by rewrite list_lookup_fmap, Hi, <- Hnorm.
  - done.
  - done.
  - unfold xla.resolve. rewrite Hlen.
    rewrite (proj2 (Z.leb_le _ _)) by lia.
    by rewrite (proj2 (Z.ltb_lt _ _)) by lia.
  - intros Hpre.
    rewrite (dim_map_compile_lookup E this input i v Hi).
    + rewrite Hnorm. f_equal. apply wrap_small.
      assert (Hentry :
        0 <= DimMap.dst_idx_ this !!! Z.to_nat ((v + 4) mod 4) < 4).
      { apply (Forall_lookup_total_1 (λ x, 0 <= x < 4)); [done|]. lia. }
      destruct (element_type input); int_bounds; lia.
    + eapply Forall_impl; [exact Hpre|]. intros u Hu. cbn beta in Hu |- *.
      destruct (normalized_in_table u Hu) as [-> ?]. lia.
    + rewrite Hnorm. lia.
  - intros that ty Hthat.
    change (DimMap.new "NHWC" "NCHW")
      with (ok {| DimMap.dst_idx_ := [0; 2; 3; 1] |}) in Hthat.
    injection Hthat as <-.
    rewrite !dim_map_compile_in_range; [done|..];
      cbn [values DimMap.dst_idx_ length];
      repeat (constructor; [vm_compute; intuition congruence|]); constructor.
Qed.

Lemma C4_witness :
  values (DimMap.src_indices {| element_type := S32; dimensions := [3];
                                values := [-1; 100; -3] |}) !! 2%nat
  = Some ((-3 + 4) mod 4) ∧
  0 <= (-3 + 4) mod 4 < 4.
Proof.
  pose proof (C4_negative_indices_wrap example_env "NHWC" "NCHW"
                {| DimMap.dst_idx_ := [0; 2; 3; 1] |}
                {| element_type := S32; dimensions := [3];
                   values := [-1; 100; -3] |}
                2%nat (-3) eq_refl eq_refl ltac:(lia)) as H.
  exact (conj (proj1 H) (proj1 (proj2 H))).
Defined.

(** C9 as stated fails at [v = -8]: [v + 4 < 0], yet the normalized
    index is [0], a position of the table. *)
Lemma C9_counterexample :
  -8 + 4 < 0 ∧
  values (DimMap.src_indices {| element_type := S32; dimensions := [1];
                                values := [-8] |}) = [0] ∧
  Forall (λ ix, 0 <= ix < 4)
         (values (DimMap.src_indices {| element_type := S32; dimensions := [1];
                                        values := [-8] |})).
Proof.
  split; [lia|]. split; [reflexivity|].
  change (Forall (λ ix, 0 <= ix < 4) [0]). repeat constructor; lia.
Qed.

(** C9, amended: for an input element [v] of the 32-bit range (with
    [v + 4] in it too) the normalized index is the truncated remainder
    of [v + 4] by 4.  When [v + 4 < 0] it lies in (-4, 0]: it is
    negative, hence outside [0,4), exactly when [v] is not a multiple
    of 4, and it is [0] when [v] is one.  The index is a position of the
    table exactly when [-4 <= v] or [v] is a multiple of 4. *)
Theorem C9_truncated_remainder_below_range input i v :
  values input !! i = Some v →
  min_value S32 <= v <= max_value S32 - 4 →
  ∃ ix, values (DimMap.src_indices input) !! i = Some ix ∧
        ix = Z.rem (v + 4) 4 ∧
        (v + 4 < 0 → -4 < ix <= 0 ∧ (ix < 0 ↔ v mod 4 ≠ 0)) ∧
        (0 <= ix < 4 ↔ -4 <= v ∨ v mod 4 = 0).
Proof.
  intros Hi Hrange. exists (normalized v).
  rewrite src_indices_eq. cbn [values].
  rewrite list_lookup_fmap, Hi. split; [done|].
  rewrite (normalized_rem v Hrange). split; [done|].
  assert (Hzero : Z.rem (v + 4) 4 = 0 ↔ v mod 4 = 0).
  { rewrite Z.rem_mod_eq_0 by lia.
    replace (v + 4) with (v + 1 * 4) by lia. by rewrite Z.mod_add by lia. }
  destruct (Z.lt_ge_cases (v + 4) 0) as [Hneg|Hpos].
  - pose proof (Z.rem_bound_pos_neg (v + 4) 4 ltac:(lia) ltac:(lia)) as Hb.
    split; [intros _; split; [lia|] |]; split; intros H.
    + intros Hz. apply Hzero in Hz. lia.
    + destruct (Z.eq_dec (Z.rem (v + 4) 4) 0) as [Hz|Hz]; [|lia].
      apply Hzero in Hz. done.
    + right. apply Hzero. lia.
    + destruct H as [H|H]; [lia|]. apply Hzero in H. lia.
  - pose proof (Z.rem_bound_pos_pos (v + 4) 4 ltac:(lia) ltac:(lia)) as Hb.
    split; [lia|]. split; [intros _; left; lia | done].
Qed.

Lemma C9_witness :
  ∃ ix, values (DimMap.src_indices {| element_type := S32; dimensions := [1];
                                      values := [-5] |}) !! 0%nat = Some ix ∧
        ix = Z.rem (-5 + 4) 4 ∧
        (-5 + 4 < 0 → -4 < ix <= 0 ∧ (ix < 0 ↔ -5 mod 4 ≠ 0)) ∧
        (0 <= ix < 4 ↔ -4 <= -5 ∨ -5 mod 4 = 0).
Proof.
  apply (C9_truncated_remainder_below_range
           {| element_type := S32; dimensions := [1]; values := [-5] |}
           0%nat (-5)).
  - reflexivity.
  - int_bounds. lia.
Defined.

(** C10: on a 64-bit input the kernel computes in a narrower type.
    An element [v] is first reduced to [n], its 32-bit two's complement
    value ([v] and [n] differ by a multiple of 2^32); the index is
    computed from [n] in 32 bits, [(n + 4) % 4]; the table entry found
    there is the output element, in the 64-bit type of the input.  So
    inputs whose elements differ by multiples of 2^32 give the same
    output. *)
Theorem C10_int64_input_is_narrowed (E : Externals)
        src_format dst_format this input i v :
  element_type input = S64 →
  DimMap.new src_format dst_format = ok this →
  values input !! i = Some v →
  (∃ k, v = wrap S32 v + k * 2 ^ 32) ∧
  min_value S32 <= wrap S32 v <= max_value S32 ∧
  element_type (xla.ConvertElementType input S32) = S32 ∧
  values (xla.ConvertElementType input S32) !! i = Some (wrap S32 v) ∧
  element_type (DimMap.src_indices input) = S32 ∧
  bit_width (element_type (DimMap.src_indices input))
  < bit_width (element_type input) ∧
  values (DimMap.src_indices input) !! i
  = Some (wrap S32 (Z.rem (wrap S32 (wrap S32 v + 4)) 4)) ∧
  (-4 <= wrap S32 v <= max_value S32 - 4 →
   values (DimMap.src_indices input) !! i = Some ((wrap S32 v + 4) mod 4)) ∧
  element_type (DimMap.Compile E this input) = S64 ∧
  dimensions (DimMap.Compile E this input) = dimensions input ∧
  (-4 <= wrap S32 v < 4 →
   Forall (λ u, -4 <= wrap S32 u < 4) (take i (values input)) →
   values (DimMap.Compile E this input) !! i
   = Some (DimMap.dst_idx_ this !!! Z.to_nat ((wrap S32 v + 4) mod 4))) ∧
  (∀ input',
     element_type input' = S64 →
     dimensions input' = dimensions input →
     Forall2 (λ u u', ∃ k, u' = u + k * 2 ^ 32)
             (values input) (values input') →
     DimMap.Compile E this input' = DimMap.Compile E this input).
Proof.
  intros Hty Hnew Hi.
  destruct (dim_map_table_range _ _ _ Hnew) as [Hlen Hrange].
  assert (Hnarrow : ∀ u, normalized u = normalized (wrap S32 u)).
  { intros u. unfold normalized.
    by rewrite (wrap_small S32 (wrap S32 u)) by apply wrap_range. }
  assert (Hnorm : ∀ u, -4 <= wrap S32 u < 4 →
            normalized u = (wrap S32 u + 4) mod 4 ∧
            0 <= (wrap S32 u + 4) mod 4 < 4).
  { intros u Hu. rewrite Hnarrow. by apply normalized_in_table. }
  split; [|split; [|split; [|split; [|split; [|split; [|split;
    [|split; [|split; [|split; [|split]]]]]]]]]].
  - exists ((v + 2 ^ 31) / 2 ^ 32). unfold wrap. cbn [bit_width].
    change (2 ^ (32 - 1)) with (2 ^ 31).
    pose proof (Z.div_mod (v + 2 ^ 31) (2 ^ 32) ltac:(lia)). lia.
  - apply wrap_range.
  - done.
  - cbn [xla.ConvertElementType values]. by rewrite list_lookup_fmap, Hi.
  - by rewrite src_indices_eq.
  - rewrite src_indices_eq, Hty. done.
  - rewrite src_indices_eq. cbn [values]. by rewrite list_lookup_fmap, Hi.
  - intros Hn. rewrite src_indices_eq. cbn [values].
    rewrite list_lookup_fmap, Hi. cbn. f_equal.
    rewrite Hnarrow. apply normalized_small. lia.
  - unfold DimMap.Compile. by rewrite Hty.
  - unfold DimMap.Compile. rewrite src_indices_eq.
    cbn [xla.ConvertElementType xla.TorchIndexSelect xla.ConstantR1
         dimensions values tail]. by rewrite app_nil_r.
  - intros Hv Hpre.
    rewrite (dim_map_compile_lookup E this input i v Hi).
    + destruct (Hnorm v Hv) as [-> Hix]. f_equal. apply wrap_small.
      assert (Hentry :
        0 <= DimMap.dst_idx_ this !!! Z.to_nat ((wrap S32 v + 4) mod 4) < 4).
      { apply (Forall_lookup_total_1 (λ x, 0 <= x < 4)); [done|]. lia. }
      destruct (element_type input); int_bounds; lia.
    + eapply Forall_impl; [exact Hpre|]. intros u Hu. cbn beta in Hu |- *.
      destruct (Hnorm u Hu) as [-> ?]. lia.
    + destruct (Hnorm v Hv) as [-> ?]. lia.
  - intros input' Hty' Hdims Hvals.
    unfold DimMap.Compile. rewrite !src_indices_eq, Hty, Hty', Hdims.
    do 3 f_equal.
    apply list_eq_Forall2, Forall2_fmap, Forall2_flip.
    eapply Forall2_impl; [exact Hvals|].
    intros u u' [k ->]. unfold flip, normalized.
    change (2 ^ 32) with (2 ^ bit_width S32).
    by rewrite (wrap_add_multiple S32 u k).
Qed.

Lemma C10_witness :
  wrap S32 4294967295 = -1 ∧
  values (DimMap.src_indices
            {| element_type := S64; dimensions := [2];
               values := [4294967297; 4294967295] |}) !! 1%nat
  = Some (wrap S32 (Z.rem (wrap S32 (wrap S32 4294967295 + 4)) 4)) ∧
  values (DimMap.Compile example_env {| DimMap.dst_idx_ := [0; 2; 3; 1] |}
            {| element_type := S64; dimensions := [2];
               values := [4294967297; 4294967295] |}) !! 1%nat
  = Some ([0; 2; 3; 1] !!! Z.to_nat ((wrap S32 4294967295 + 4) mod 4)).
Proof.
  pose proof (C10_int64_input_is_narrowed example_env "NHWC" "NCHW"
                {| DimMap.dst_idx_ := [0; 2; 3; 1] |}
                {| element_type := S64; dimensions := [2];
                   values := [4294967297; 4294967295] |}
                1%nat 4294967295 eq_refl eq_refl eq_refl) as H.
  split; [reflexivity|].
  split; [exact (proj1 (proj2 (proj2 (proj2 (proj2 (proj2 (proj2 H)))))))|].
  apply (proj1 (proj2 (proj2 (proj2 (proj2 (proj2 (proj2 (proj2
           (proj2 (proj2 (proj2 H))))))))))).
  - change (wrap S32 4294967295) with (-1). lia.
  - constructor; [|constructor].
    change (wrap S32 4294967297) with 1. lia.
Defined.

Lemma vec_permute_new_ok (E : Externals) src_format dst_format this :
  VecPermute.new E src_format dst_format = ok this →
  size src_format = 4%nat ∧ size dst_format = 4%nat ∧
  FormatFromString E src_format = true ∧
  FormatFromString E dst_format = true ∧
  this = {| VecPermute.src_format_ := src_format;
            VecPermute.dst_format_ := dst_format |}.
Proof.
  unfold VecPermute.new, OP_REQUIRES.
  destruct (Nat.eqb_spec (size src_format) 4); [|done].
  destruct (FormatFromString E src_format); [|done].
  destruct (Nat.eqb_spec (size dst_format) 4); [|done].
  destruct (FormatFromString E dst_format); [|done].
  by intros [= <-].
Qed.

(** With a validator that knows the four layout names only, every
    kernel that the constructor returns has two arrangements of the same
    four distinct symbols. *)
Lemma vec_permute_new_layouts (E : Externals) src_format dst_format this :
  recognizes_layouts E →
  VecPermute.new E src_format dst_format = ok this →
  distinct_symbols src_format ∧ permutation_of src_format dst_format.
Proof.
  intros Hknown (Hs & Hd & Hsrc & Hdst & _)%vec_permute_new_ok.
  pose proof (Hknown _ Hsrc Hs) as Hin1.
  pose proof (Hknown _ Hdst Hd) as Hin2.
  clear Hs Hd Hsrc Hdst.
  unfold four_letter_layouts in Hin1, Hin2.
  rewrite !elem_of_cons, elem_of_nil in Hin1, Hin2.
  assert (Hperm : ∀ l k : list ascii,
            NoDup l → NoDup k → bool_decide (l ⊆ k) = true →
            bool_decide (k ⊆ l) = true → l ≡ₚ k).
  { intros l k Hl Hk H1%bool_decide_eq_true H2%bool_decide_eq_true.
    apply NoDup_Permutation; [done..|]. intros x. split; [apply H1 | apply H2]. }
  destruct Hin1 as [-> | [-> | [-> | [-> | []]]]];
    destruct Hin2 as [-> | [-> | [-> | [-> | []]]]];
    (split;
     [ refine (bool_decide_unpack _ _); vm_compute; exact I
     | apply Hperm;
       [ refine (bool_decide_unpack _ _); vm_compute; exact I
       | refine (bool_decide_unpack _ _); vm_compute; exact I
       | vm_compute; reflexivity
       | vm_compute; reflexivity ] ]).
Qed.

Lemma example_env_recognizes_layouts : recognizes_layouts example_env.
Proof. intros fmt H _. by apply bool_decide_eq_true in H. Qed.

(** C5: on an accepted input (rank 1 of length 4, or shape [4,2]) the
    kernel succeeds, and row [j] of its output is the row of the input
    at [dst_indices[j]], the position in the source format of the
    [j]-th symbol of the destination format; for NHWC and NCHW the
    vector [10,20,30,40] becomes [10,40,20,30], and the rows of a
    [4,2] input are reordered in the same way, each row kept whole. *)
Theorem C5_vec_permute_gathers_rows (E : Externals) :
  (∀ src_format dst_format this input j d,
     VecPermute.new E src_format dst_format = ok this →
     distinct_symbols src_format →
     permutation_of src_format dst_format →
     well_formed input → valid_shape input →
     chars dst_format !! j = Some d →
     ∃ output i,
       VecPermute.Compile E this input = ok (Some output) ∧
       element_type output = element_type input ∧
       dimensions output = dimensions input ∧
       VecPermute.dst_indices this !! j = Some (Some (Z.of_nat i)) ∧
       chars src_format !! i = Some d ∧
       row output j = row input i)
  ∧ (∀ ty n h w c,
       VecPermute.Compile E
         {| VecPermute.src_format_ := "NHWC"; VecPermute.dst_format_ := "NCHW" |}
         {| element_type := ty; dimensions := [4]; values := [n; h; w; c] |}
       = ok (Some {| element_type := ty; dimensions := [4];
                     values := [n; c; h; w] |}))
  ∧ VecPermute.Compile E
      {| VecPermute.src_format_ := "NHWC"; VecPermute.dst_format_ := "NCHW" |}
      {| element_type := S32; dimensions := [4];
         values := [10; 20; 30; 40] |}
    = ok (Some {| element_type := S32; dimensions := [4];
                  values := [10; 40; 20; 30] |})
  ∧ (∀ ty n0 n1 h0 h1 w0 w1 c0 c1,
       VecPermute.Compile E
         {| VecPermute.src_format_ := "NHWC"; VecPermute.dst_format_ := "NCHW" |}
         {| element_type := ty; dimensions := [4; 2];
            values := [n0; n1; h0; h1; w0; w1; c0; c1] |}
       = ok (Some {| element_type := ty; dimensions := [4; 2];
                     values := [n0; n1; c0; c1; h0; h1; w0; w1] |})).
Proof.
  split; [|split; [|split]]; [|reflexivity..].
  intros src_format dst_format this input j d Hnew Hnd Hperm Hwf Hshape Hj.
  apply vec_permute_new_ok in Hnew as (Hsize & _ & _ & _ & ->).
  set (this := {| VecPermute.src_format_ := src_format;
                  VecPermute.dst_format_ := dst_format |}).
  assert (Hin : d ∈ chars src_format).
  { unfold permutation_of in Hperm. rewrite Hperm.
    by eapply list_elem_of_lookup_2. }
  eexists _, (index_in src_format d).
  split; [by apply (vec_permute_compile_valid E this)|].
  split; [done|]. split; [done|].
  split; [|split].
  - pose proof (vec_permute_dst_indices this Hsize Hnd Hperm) as Htable.
    apply mapM_Some_1 in Htable.
    eapply Forall2_lookup_r in Htable as (x & Hx & Hid);
      [|by rewrite list_lookup_fmap; cbn [VecPermute.dst_format_ this]; rewrite Hj].
    rewrite Hx. f_equal. exact Hid.
  - by apply index_in_elem_of.
  - by apply (vec_permute_output_row this input j d).
Qed.

Lemma C5_witness :
  ∃ output i,
    VecPermute.Compile example_env
      {| VecPermute.src_format_ := "NHWC"; VecPermute.dst_format_ := "NCHW" |}
      {| element_type := S32; dimensions := [4; 2];
         values := [10; 11; 20; 21; 30; 31; 40; 41] |} = ok (Some output) ∧
    element_type output = S32 ∧
    dimensions output = [4; 2] ∧
    VecPermute.dst_indices
      {| VecPermute.src_format_ := "NHWC"; VecPermute.dst_format_ := "NCHW" |}
      !! 1%nat = Some (Some (Z.of_nat i)) ∧
    chars "NHWC" !! i = Some "C"%char ∧
    row output 1
    = row {| element_type := S32; dimensions := [4; 2];
             values := [10; 11; 20; 21; 30; 31; 40; 41] |} i.
Proof.
  apply (proj1 (C5_vec_permute_gathers_rows example_env)
           "NHWC" "NCHW"
           {| VecPermute.src_format_ := "NHWC"; VecPermute.dst_format_ := "NCHW" |}
           {| element_type := S32; dimensions := [4; 2];
              values := [10; 11; 20; 21; 30; 31; 40; 41] |}
           1%nat "C"%char).
  - reflexivity.
  - unfold distinct_symbols. refine (bool_decide_unpack _ _). vm_compute. exact I.
  - unfold permutation_of. cbn.
    apply perm_skip. symmetry. apply (Permutation_cons_append ["H"; "W"]%char).
  - split; [repeat constructor; lia | reflexivity].
  - right. reflexivity.
  - reflexivity.
Defined.

(** C6: an input whose rank is neither 1 nor 2, or whose first extent is
    not 4, or of rank 2 with a second extent other than 2, makes
    [Compile] fail with an invalid-argument status, and no output is
    set. *)
Theorem C6_invalid_shape_rejected (E : Externals) this input :
  (length (dimensions input) ≠ 1%nat ∧ length (dimensions input) ≠ 2%nat)
  ∨ dimensions input !! 0%nat ≠ Some 4
  ∨ (length (dimensions input) = 2%nat ∧ dimensions input !! 1%nat ≠ Some 2) →
  ∃ msg, VecPermute.Compile E this input = inl (InvalidArgument msg).
Proof.
  intros Hbad. unfold VecPermute.Compile, VecPermute.dims, VecPermute.dim_size.
  destruct (dimensions input) as [|d0 [|d1 [|d2 rest]]] eqn:Hdims;
    cbn [length] in *.
  - eexists. reflexivity.
  - cbn. destruct (Z.eqb_spec d0 4) as [->|Hne]; [|eexists; reflexivity].
    destruct Hbad as [[? _] | [H | [? _]]]; done.
  - cbn. destruct (Z.eqb_spec d0 4) as [->|Hne]; [|eexists; reflexivity].
    cbn. destruct (Z.eqb_spec d1 2) as [->|Hne]; [|eexists; reflexivity].
    destruct Hbad as [[_ ?] | [H | [_ H]]]; done.
  - replace ((Z.of_nat (S (S (S (length rest)))) =? 1)
             || (Z.of_nat (S (S (S (length rest)))) =? 2)) with false.
    + eexists. reflexivity.
    + symmetry. apply orb_false_intro; apply Z.eqb_neq; lia.
Qed.

Lemma C6_witness :
  ∃ msg,
    VecPermute.Compile example_env
      {| VecPermute.src_format_ := "NHWC"; VecPermute.dst_format_ := "NCHW" |}
      {| element_type := S32; dimensions := [4; 3];
         values := [1; 2; 3; 4; 5; 6; 7; 8; 9; 10; 11; 12] |}
    = inl (InvalidArgument msg).
Proof.
  apply C6_invalid_shape_rejected.
  right. right. split; [reflexivity | discriminate].
Defined.

(** A map over the elements of a list, read as a map over positions. *)
Lemma fmap_by_position {A B} (f : A → B) (g : nat → B) (l : list A) :
  (∀ i x, l !! i = Some x → f x = g i) →
  f <$> l = g <$> seq 0 (length l).
Proof.
  intros H. apply list_eq. intros i.
  rewrite !list_lookup_fmap.
  destruct (l !! i) as [x|] eqn:Hx; simpl.
  - rewrite lookup_seq_lt by (by eapply lookup_lt_Some).
    simpl. f_equal. by apply H.
  - rewrite lookup_seq_ge; [done|]. by apply lookup_ge_None.
Qed.

(** Permuting there and back gathers the rows of the input in order. *)
Lemma vec_permute_there_and_back src_format dst_format input :
  well_formed input → valid_shape input →
  size src_format = 4%nat →
  distinct_symbols src_format → permutation_of src_format dst_format →
  concat (row {| element_type := element_type input;
                 dimensions := dimensions input;
                 values := concat (row input <$>
                                     (index_in src_format <$> chars dst_format)) |}
            <$> (index_in dst_format <$> chars src_format))
  = values input.
Proof.
  intros Hwf Hshape Hsize Hnd Hperm.
  destruct (valid_shape_rows input Hwf Hshape) as (Hlen & _ & _).
  rewrite <- list_fmap_compose.
  rewrite (fmap_by_position _ (row input)).
  - rewrite length_chars, Hsize. by apply concat_rows.
  - intros i c Hi. cbn [compose].
    destruct (index_in_round_trip src_format dst_format i c Hnd Hperm Hi)
      as (d & Hd & Hback).
    rewrite (vec_permute_output_row
               {| VecPermute.src_format_ := src_format;
                  VecPermute.dst_format_ := dst_format |} input _ d);
      try done.
    cbn [VecPermute.src_format_]. by rewrite Hback.
Qed.

(** C7: for two arrangements of the same four distinct symbols, the
    table from the first to the second followed by the table from the
    second to the first is the identity on the four positions (in both
    orders); permuting a vector with one kernel and then with the kernel
    of the swapped formats returns the vector, and a kernel whose two
    formats are equal returns its input. *)
Theorem C7_round_trip_is_identity (E : Externals) src_format dst_format :
  size src_format = 4%nat →
  distinct_symbols src_format →
  permutation_of src_format dst_format →
  (∃ forward backward,
     DimMap.new src_format dst_format = ok forward ∧
     DimMap.new dst_format src_format = ok backward ∧
     (∀ i, (i < 4)%nat →
           ∃ j, (j < 4)%nat ∧
                DimMap.dst_idx_ forward !! i = Some (Z.of_nat j) ∧
                DimMap.dst_idx_ backward !! j = Some (Z.of_nat i)) ∧
     (∀ j, (j < 4)%nat →
           ∃ i, (i < 4)%nat ∧
                DimMap.dst_idx_ backward !! j = Some (Z.of_nat i) ∧
                DimMap.dst_idx_ forward !! i = Some (Z.of_nat j)))
  ∧ (∀ there back input,
       VecPermute.new E src_format dst_format = ok there →
       VecPermute.new E dst_format src_format = ok back →
       well_formed input → valid_shape input →
       ∃ mid, VecPermute.Compile E there input = ok (Some mid) ∧
              VecPermute.Compile E back mid = ok (Some input))
  ∧ (∀ same input,
       VecPermute.new E src_format src_format = ok same →
       well_formed input → valid_shape input →
       VecPermute.Compile E same input = ok (Some input)).
Proof.
  intros Hsize Hnd Hperm.
  pose proof (permutation_of_sym _ _ Hperm) as Hperm'.
  pose proof (permutation_of_distinct _ _ Hnd Hperm) as Hnd'.
  pose proof (permutation_of_size _ _ Hperm) as Hsize'. rewrite Hsize in Hsize'.
  assert (Hhalf : ∀ a b, size a = 4%nat → distinct_symbols a →
            permutation_of a b → ∀ i, (i < 4)%nat →
            ∃ j, (j < 4)%nat ∧
                 (entry b <$> chars a) !! i = Some (Z.of_nat j) ∧
                 (entry a <$> chars b) !! j = Some (Z.of_nat i)).
  { intros a b Ha Hda Hab i Hi.
    destruct (lookup_lt_is_Some_2 (chars a) i) as [c Hc].
    { by rewrite length_chars, Ha. }
    destruct (index_in_round_trip a b i c Hda Hab Hc) as (d & Hd & Hback).
    exists (index_in b c). split; [|split].
    - rewrite <- (permutation_of_size _ _ Hab), <- length_chars in Ha.
      rewrite <- Ha. by eapply lookup_lt_Some.
    - by rewrite list_lookup_fmap, Hc.
    - rewrite list_lookup_fmap, Hd. simpl. unfold entry. by rewrite Hback. }
  split; [|split].
  - exists {| DimMap.dst_idx_ := entry dst_format <$> chars src_format |},
           {| DimMap.dst_idx_ := entry src_format <$> chars dst_format |}.
    split; [by apply dim_map_new_permutation|].
    split; [by apply dim_map_new_permutation|].
    cbn [DimMap.dst_idx_]. split; by apply Hhalf.
  - intros there back input Hthere Hback Hwf Hshape.
    apply vec_permute_new_ok in Hthere as (_ & _ & _ & _ & ->).
    apply vec_permute_new_ok in Hback as (_ & _ & _ & _ & ->).
    eexists. split; [by apply vec_permute_compile_valid|].
    cbn [VecPermute.src_format_ VecPermute.dst_format_].
    match goal with
    | |- VecPermute.Compile _ ?k ?mid = _ =>
        rewrite (vec_permute_compile_valid E k mid Hsize' Hnd' Hperm' Hshape)
    end.
    cbn [element_type dimensions values
         VecPermute.src_format_ VecPermute.dst_format_].
    rewrite vec_permute_there_and_back by done.
    by destruct input.
  - intros same input Hsame Hwf Hshape.
    apply vec_permute_new_ok in Hsame as (_ & _ & _ & _ & ->).
    rewrite (vec_permute_compile_valid E
               {| VecPermute.src_format_ := src_format;
                  VecPermute.dst_format_ := src_format |} _
               Hsize Hnd (Permutation_refl _) Hshape).
    cbn [VecPermute.src_format_ VecPermute.dst_format_].
    destruct (valid_shape_rows input Hwf Hshape) as (Hlen & _ & _).
    rewrite <- list_fmap_compose.
    rewrite (fmap_by_position _ (row input)).
    + rewrite length_chars, Hsize, (concat_rows input 4 Hlen).
      by destruct input.
    + intros i c Hi. cbn [compose]. by rewrite (index_in_lookup _ c i).
Qed.

Lemma NHWC_distinct : distinct_symbols "NHWC".
Proof. refine (bool_decide_unpack _ _). vm_compute. exact I. Qed.

Lemma NHWC_NCHW_permutation : permutation_of "NHWC" "NCHW".
Proof.
  unfold permutation_of. cbn.
  apply perm_skip. symmetry. apply (Permutation_cons_append ["H"; "W"]%char).
Qed.

Lemma C7_witness :
  ∃ mid,
    VecPermute.Compile example_env
      {| VecPermute.src_format_ := "NHWC"; VecPermute.dst_format_ := "NCHW" |}
      {| element_type := S32; dimensions := [4];
         values := [10; 20; 30; 40] |} = ok (Some mid) ∧
    VecPermute.Compile example_env
      {| VecPermute.src_format_ := "NCHW"; VecPermute.dst_format_ := "NHWC" |}
      mid
    = ok (Some {| element_type := S32; dimensions := [4];
                  values := [10; 20; 30; 40] |}).
Proof.
  apply (proj1 (proj2 (C7_round_trip_is_identity example_env "NHWC" "NCHW"
                         eq_refl NHWC_distinct NHWC_NCHW_permutation))).
  - reflexivity.
  - reflexivity.
  - split; [repeat constructor; lia | reflexivity].
  - left. reflexivity.
Defined.

(** ** Messages *)

Section Contains.
Implicit Types (s t pre post : string).

Lemma prefix_append s post : String.prefix s (s +:+ post) = true.
Proof.
  induction s as [|a s IH]; simpl; [by destruct post|].
  destruct (Ascii.ascii_dec a a); [exact IH | done].
Qed.

Lemma contains_of_prefix s t : String.prefix s t = true → contains s t = true.
Proof. intros H. destruct t; cbn [contains]; by rewrite H. Qed.

Lemma contains_prefix s post : contains s (s +:+ post) = true.
Proof. apply contains_of_prefix, prefix_append. Qed.

Lemma contains_append_r s pre t :
  contains s t = true → contains s (pre +:+ t) = true.
Proof.
  intros H. induction pre as [|a pre IH]; simpl; [done|].
  rewrite IH. apply orb_true_r.
Qed.

Lemma append_empty_r s : s +:+ EmptyString = s.
Proof.
  induction s as [|a s IH]; [done|].
  change (String a (s +:+ EmptyString) = String a s). by rewrite IH.
Qed.

Lemma contains_suffix s pre : contains s (pre +:+ s) = true.
Proof.
  apply contains_append_r.
  pose proof (contains_prefix s EmptyString) as H.
  by rewrite append_empty_r in H.
Qed.

End Contains.

(** C8 as stated fails for the constructor of the vector-permute
    kernel: its two messages are fixed texts, and neither names the
    format string that was refused. *)
Lemma C8_counterexample :
  VecPermute.new example_env "NHW" "NCHW"
  = inl (InvalidArgument "Data format should have 4 characters") ∧
  contains "NHW" "Data format should have 4 characters" = false ∧
  VecPermute.new example_env "ABCD" "NCHW"
  = inl (InvalidArgument "Invalid data format") ∧
  contains "ABCD" "Invalid data format" = false.
Proof. repeat split; reflexivity. Qed.

(** C8, amended: a failed construction of the dimension-index-remap
    kernel carries a message that contains the refused format string
    (both strings when one is not an arrangement of the other), and a
    failed [Compile] of the vector-permute kernel carries a message that
    contains the printed shape of its input; a failed construction of
    the vector-permute kernel carries one of two fixed texts. *)
Theorem C8_messages_name_the_offending_value (E : Externals) :
  (∀ src_format dst_format st,
     DimMap.new src_format dst_format = inl st →
     (size src_format ≠ 4%nat ∧ contains src_format (error_message st) = true)
     ∨ (size dst_format ≠ 4%nat ∧
        contains dst_format (error_message st) = true)
     ∨ (contains src_format (error_message st) = true ∧
        contains dst_format (error_message st) = true))
  ∧ (∀ this input st,
       VecPermute.Compile E this input = inl st →
       contains (DebugString E (dimensions input)) (error_message st) = true)
  ∧ (∀ src_format dst_format st,
       VecPermute.new E src_format dst_format = inl st →
       ((size src_format ≠ 4%nat ∨ size dst_format ≠ 4%nat) ∧
        error_message st = "Data format should have 4 characters")
       ∨ ((FormatFromString E src_format = false ∨
           FormatFromString E dst_format = false) ∧
          error_message st = "Invalid data format")).
Proof.
  split; [|split].
  - intros src_format dst_format st Hfail.
    destruct (dim_map_new_failure _ _ _ Hfail)
      as [[Hs ->] | [[Hd ->] | [_ ->]]].
    + left. split; [done|]. apply contains_suffix.
    + right. left. split; [done|]. apply contains_suffix.
    + right. right. unfold StrCat3. split.
      * apply contains_prefix.
      * apply contains_append_r, contains_suffix.
  - intros this input st.
    unfold VecPermute.Compile, OP_REQUIRES.
    repeat match goal with
           | |- context [if ?b then _ else _] => destruct b
           end;
      intros [= <-]; apply contains_suffix.
  - intros src_format dst_format st.
    unfold VecPermute.new, OP_REQUIRES.
    destruct (Nat.eqb_spec (size src_format) 4).
    2: { intros [= <-]. left. split; [by left | done]. }
    destruct (FormatFromString E src_format) eqn:Hsrc.
    2: { intros [= <-]. right. split; [by left | done]. }
    destruct (Nat.eqb_spec (size dst_format) 4).
    2: { intros [= <-]. left. split; [by right | done]. }
    destruct (FormatFromString E dst_format) eqn:Hdst.
    2: { intros [= <-]. right. split; [by right | done]. }
    done.
Qed.

Lemma C8_witness :
  contains (DebugString example_env [4; 3])
    "Second dimension of 2D input must be of size 2, but got shape [4,3]"
  = true.
Proof.
  exact (proj1 (proj2 (C8_messages_name_the_offending_value example_env))
           {| VecPermute.src_format_ := "NHWC"; VecPermute.dst_format_ := "NCHW" |}
           {| element_type := S32; dimensions := [4; 3];
              values := [1; 2; 3; 4; 5; 6; 7; 8; 9; 10; 11; 12] |}
           (InvalidArgument
              "Second dimension of 2D input must be of size 2, but got shape [4,3]")
           eq_refl).
Defined.

(** ** Further properties of the dimension-index-remap constructor *)

(** X1: whenever the constructor succeeds, the table has four entries
    and each is a position of the destination format. *)
Theorem dim_map_accepted_table_in_range src_format dst_format this :
  DimMap.new src_format dst_format = ok this →
  length (DimMap.dst_idx_ this) = 4%nat ∧
  Forall (λ x, 0 <= x < 4) (DimMap.dst_idx_ this).
Proof. apply dim_map_table_range. Qed.

Lemma dim_map_accepted_table_in_range_witness :
  length [0; 0; 1; 2] = 4%nat ∧ Forall (λ x, 0 <= x < 4) [0; 0; 1; 2].
Proof.
  exact (dim_map_accepted_table_in_range "NNHW" "NHWC"
           {| DimMap.dst_idx_ := [0; 0; 1; 2] |} eq_refl).
Defined.

(** X2: when the source format has four distinct symbols and the
    constructor succeeds, the destination is an arrangement of the same
    symbols and the table is a bijection on the four positions. *)
Theorem dim_map_distinct_source_gives_bijection src_format dst_format this :
  distinct_symbols src_format →
  DimMap.new src_format dst_format = ok this →
  permutation_of src_format dst_format ∧
  NoDup (DimMap.dst_idx_ this) ∧
  Forall (λ x, 0 <= x < 4) (DimMap.dst_idx_ this).
Proof.
  intros Hnd Hnew. split; [|split].
  - by eapply dim_map_new_distinct_source.
  - by eapply dim_map_table_distinct.
  - by eapply dim_map_table_range.
Qed.

Lemma dim_map_distinct_source_gives_bijection_witness :
  permutation_of "NHWC" "NCHW" ∧
  NoDup [0; 2; 3; 1] ∧
  Forall (λ x, 0 <= x < 4) [0; 2; 3; 1].
Proof.
  exact (dim_map_distinct_source_gives_bijection "NHWC" "NCHW"
           {| DimMap.dst_idx_ := [0; 2; 3; 1] |} NHWC_distinct eq_refl).
Defined.

(** X3: the constructor fails exactly when one of the strings does not
    have four characters or some source symbol does not occur in the
    destination; a repeated source symbol alone does not make it fail. *)
Theorem dim_map_new_fails_iff src_format dst_format :
  (∃ st, DimMap.new src_format dst_format = inl st) ↔
  size src_format ≠ 4%nat ∨ size dst_format ≠ 4%nat ∨
  ¬ Forall (λ c, c ∈ chars dst_format) (chars src_format).
Proof.
  split.
  - intros [st Hst].
    destruct (dim_map_new_failure _ _ _ Hst) as [[? _] | [[? _] | [? _]]];
      auto.
  - intros H. rewrite dim_map_new_eq.
    destruct (Nat.eqb_spec (size src_format) 4); cbn [negb]; [|by eexists].
    destruct (Nat.eqb_spec (size dst_format) 4); cbn [negb]; [|by eexists].
    destruct (decide _) as [Hall|]; [|by eexists].
    destruct H as [? | [? | ?]]; done.
Qed.

(** ** Further properties of the vector-permute kernel *)

(** The constructor succeeds exactly when both strings have four
    characters and the validator accepts both; it then stores the two
    strings.  It compares the two formats with each other in no way. *)
Lemma vec_permute_new_succeeds_iff (E : Externals)
        src_format dst_format this :
  VecPermute.new E src_format dst_format = ok this ↔
  size src_format = 4%nat ∧ size dst_format = 4%nat ∧
  FormatFromString E src_format = true ∧
  FormatFromString E dst_format = true ∧
  this = {| VecPermute.src_format_ := src_format;
            VecPermute.dst_format_ := dst_format |}.
Proof.
  split; [apply vec_permute_new_ok|].
  intros (Hs & Hd & Hsrc & Hdst & ->).
  unfold VecPermute.new, OP_REQUIRES. by rewrite Hs, Hd, Hsrc, Hdst.
Qed.

(** The shapes that pass the three checks of [Compile]. *)
Lemma vec_permute_shape_checks (E : Externals) this input :
  (∃ st, VecPermute.Compile E this input = inl st) ↔ ¬ valid_shape input.
Proof.
  unfold VecPermute.Compile, VecPermute.dims, VecPermute.dim_size, valid_shape.
  destruct (dimensions input) as [|d0 [|d1 [|d2 rest]]]; cbn [length].
  - cbn. split; [intros _ [H|H]; discriminate | intros _; by eexists].
  - cbn. destruct (Z.eqb_spec d0 4) as [->|Hne]; cbn.
    + split; [intros [st Hst]; discriminate | intros H; destruct H; by left].
    + split; [intros _ [H|H]; congruence | intros _; by eexists].
  - cbn. destruct (Z.eqb_spec d0 4) as [->|Hne]; cbn.
    2: { split; [intros _ [H|H]; congruence | intros _; by eexists]. }
    destruct (Z.eqb_spec d1 2) as [->|Hne]; cbn.
    + split; [intros [st Hst]; discriminate | intros H; destruct H; by right].
    + split; [intros _ [H|H]; congruence | intros _; by eexists].
  - replace ((Z.of_nat (S (S (S (length rest)))) =? 1)
             || (Z.of_nat (S (S (S (length rest)))) =? 2)) with false
      by (symmetry; apply orb_false_intro; apply Z.eqb_neq; lia).
    cbn. split; [intros _ [H|H]; discriminate | intros _; by eexists].
Qed.

(** X4: for every kernel, [Compile] fails exactly on the inputs whose
    shape is neither [4] nor [4,2]; the formats play no part in it. *)
Theorem vec_permute_compile_fails_iff (E : Externals) this input :
  (∃ st, VecPermute.Compile E this input = inl st) ↔
  dimensions input ≠ [4] ∧ dimensions input ≠ [4; 2].
Proof.
  rewrite vec_permute_shape_checks. unfold valid_shape. tauto.
Qed.

(** An entry that some source symbol selects is assigned, whatever
    repetitions the two strings have. *)
Lemma vec_permute_outer_loop_assigned dst src i arr j :
  Exists (λ c, position c dst = Some j) src → (j < length arr)%nat →
  ∃ k, VecPermute.outer_loop dst src i arr !! j = Some (Some k).
Proof.
  revert i arr. induction src as [|c src IH]; intros i arr Hex Hj.
  { by apply Exists_nil in Hex. }
  cbn [VecPermute.outer_loop]. rewrite vec_permute_inner_loop_position.
  destruct (decide (Exists (λ c, position c dst = Some j) src)) as [Hlater|Hnot].
  - apply IH; [done|]. destruct (position c dst); [by rewrite length_insert|done].
  - apply Exists_cons in Hex as [Hc|Hlater]; [|done].
    rewrite vec_permute_outer_loop_other.
    + rewrite Hc. simpl. rewrite list_lookup_insert_eq by done. by eexists.
    + intros c' Hc' Hpos. apply Hnot, Exists_exists. by exists c'.
Qed.

(** The entries that the loops of [Compile] leave without a value. *)
Lemma vec_permute_unassigned this j :
  VecPermute.dst_indices this !! j = Some None ↔
  (j < 4)%nat ∧
  ∀ c, c ∈ chars (VecPermute.src_format_ this) →
       position c (chars (VecPermute.dst_format_ this)) ≠ Some j.
Proof.
  unfold VecPermute.dst_indices. split.
  - intros Hj. split.
    + apply lookup_lt_Some in Hj.
      by rewrite vec_permute_outer_loop_length in Hj.
    + intros c Hc Hpos.
      destruct (vec_permute_outer_loop_assigned
                  (chars (VecPermute.dst_format_ this))
                  (chars (VecPermute.src_format_ this)) 0
                  VecPermute.dst_indices_init j) as [k Hk].
      * apply Exists_exists. by exists c.
      * apply lookup_lt_Some in Hj.
        by rewrite vec_permute_outer_loop_length in Hj.
      * congruence.
  - intros [Hj Hno]. rewrite vec_permute_outer_loop_other by done.
    by do 4 (destruct j as [|j]; [done|]); simpl in Hj; lia.
Qed.

(** X5: entry [j] of [dst_indices] is left without a value exactly when
    no symbol of the source format has its first occurrence in the
    destination format at position [j]. *)
Theorem vec_permute_entry_unassigned_iff this j :
  VecPermute.dst_indices this !! j = Some None ↔
  (j < 4)%nat ∧
  ∀ c, c ∈ chars (VecPermute.src_format_ this) →
       position c (chars (VecPermute.dst_format_ this)) ≠ Some j.
Proof. apply vec_permute_unassigned. Qed.

Lemma concat_Permutation (l k : list (list Z)) :
  l ≡ₚ k → concat l ≡ₚ concat k.
Proof.
  induction 1 as [|x l k _ IH|x y l|l k m _ IH1 _ IH2]; simpl.
  - done.
  - by rewrite IH.
  - rewrite !app_assoc. by rewrite (Permutation_app_comm y x).
  - by rewrite IH1.
Qed.

(** The index table of two arrangements of the same distinct symbols
    lists every position once. *)
Lemma vec_permute_indices_permutation src_format dst_format :
  distinct_symbols src_format → permutation_of src_format dst_format →
  index_in src_format <$> chars dst_format ≡ₚ seq 0 (size src_format).
Proof.
  intros Hnd Hperm. unfold permutation_of in Hperm. rewrite <- Hperm.
  rewrite (fmap_by_position _ id).
  - by rewrite list_fmap_id, length_chars.
  - intros i c Hi. by apply index_in_lookup.
Qed.

(** The output holds the elements of the input, each once. *)
Lemma vec_permute_rearranged (E : Externals) this input :
  size (VecPermute.src_format_ this) = 4%nat →
  distinct_symbols (VecPermute.src_format_ this) →
  permutation_of (VecPermute.src_format_ this) (VecPermute.dst_format_ this) →
  well_formed input → valid_shape input →
  ∃ output,
    VecPermute.Compile E this input = ok (Some output) ∧
    element_type output = element_type input ∧
    dimensions output = dimensions input ∧
    values output ≡ₚ values input ∧
    well_formed output.
Proof.
  intros Hsize Hnd Hperm Hwf Hshape.
  eexists. split; [by apply vec_permute_compile_valid|].
  cbn [element_type dimensions values].
  destruct (valid_shape_rows input Hwf Hshape) as (Hlen & _ & _).
  assert (Hvals :
    concat (row input <$> (index_in (VecPermute.src_format_ this)
                             <$> chars (VecPermute.dst_format_ this)))
    ≡ₚ values input).
  { rewrite <- (concat_rows input 4 Hlen).
    apply concat_Permutation, fmap_Permutation.
    rewrite <- Hsize. by apply vec_permute_indices_permutation. }
  split; [done|]. split; [done|]. split; [done|].
  destruct Hwf as [Hdims Hcount]. split; [done|].
  cbn [dimensions values]. by rewrite Hvals.
Qed.

(** X7: for two arrangements of the same four distinct symbols, the
    output of [Compile] is a rearrangement of the input: same element
    type, same shape, and the same elements with the same
    multiplicities. *)
Theorem vec_permute_output_is_rearrangement (E : Externals)
        src_format dst_format this input :
  VecPermute.new E src_format dst_format = ok this →
  distinct_symbols src_format →
  permutation_of src_format dst_format →
  well_formed input → valid_shape input →
  ∃ output,
    VecPermute.Compile E this input = ok (Some output) ∧
    element_type output = element_type input ∧
    dimensions output = dimensions input ∧
    values output ≡ₚ values input ∧
    well_formed output.
Proof.
  intros (Hs & _ & _ & _ & ->)%vec_permute_new_ok Hnd Hperm Hwf Hshape.
  by apply vec_permute_rearranged.
Qed.

Lemma vec_permute_output_is_rearrangement_witness :
  ∃ output,
    VecPermute.Compile example_env
      {| VecPermute.src_format_ := "NHWC"; VecPermute.dst_format_ := "NCHW" |}
      {| element_type := S64; dimensions := [4; 2];
         values := [1; 2; 3; 4; 5; 6; 7; 8] |} = ok (Some output) ∧
    element_type output = S64 ∧
    dimensions output = [4; 2] ∧
    values output ≡ₚ [1; 2; 3; 4; 5; 6; 7; 8] ∧
    well_formed output.
Proof.
  apply (vec_permute_output_is_rearrangement example_env "NHWC" "NCHW").
  - reflexivity.
  - exact NHWC_distinct.
  - exact NHWC_NCHW_permutation.
  - split; [repeat constructor; lia | reflexivity].
  - right. reflexivity.
Defined.

(** X8: under a validator that knows only the four layout names, every
    kernel that the constructor returns turns every input of an
    accepted shape into an output: no status, no unassigned entry, and
    the output is a rearrangement of the input. *)
Theorem vec_permute_known_layouts_total (E : Externals)
        src_format dst_format this input :
  recognizes_layouts E →
  VecPermute.new E src_format dst_format = ok this →
  well_formed input → valid_shape input →
  ∃ output,
    VecPermute.Compile E this input = ok (Some output) ∧
    element_type output = element_type input ∧
    dimensions output = dimensions input ∧
    values output ≡ₚ values input.
Proof.
  intros Hknown Hnew Hwf Hshape.
  destruct (vec_permute_new_layouts E _ _ _ Hknown Hnew) as [Hnd Hperm].
  apply vec_permute_new_ok in Hnew as (Hs & _ & _ & _ & ->).
  destruct (vec_permute_rearranged E
              {| VecPermute.src_format_ := src_format;
                 VecPermute.dst_format_ := dst_format |}
              input Hs Hnd Hperm Hwf Hshape)
    as (output & H1 & H2 & H3 & H4 & _).
  by exists output.
Qed.

Lemma vec_permute_known_layouts_total_witness :
  ∃ output,
    VecPermute.Compile example_env
      {| VecPermute.src_format_ := "HWNC"; VecPermute.dst_format_ := "NCHW" |}
      {| element_type := S32; dimensions := [4];
         values := [7; 8; 9; 10] |} = ok (Some output) ∧
    element_type output = S32 ∧
    dimensions output = [4] ∧
    values output ≡ₚ [7; 8; 9; 10].
Proof.
  apply (vec_permute_known_layouts_total example_env "HWNC" "NCHW").
  - exact example_env_recognizes_layouts.
  - reflexivity.
  - split; [repeat constructor; lia | reflexivity].
  - left. reflexivity.
Defined.

Lemma permutation_of_trans a b c :
  permutation_of a b → permutation_of b c → permutation_of a c.
Proof. unfold permutation_of. by intros -> ->. Qed.

(** X9: permuting from a first format to a second and then from the
    second to a third gives what the kernel from the first to the third
    gives, for three arrangements of the same four distinct symbols. *)
Theorem vec_permute_compose (E : Externals) fmt1 fmt2 fmt3
        first second direct input :
  VecPermute.new E fmt1 fmt2 = ok first →
  VecPermute.new E fmt2 fmt3 = ok second →
  VecPermute.new E fmt1 fmt3 = ok direct →
  distinct_symbols fmt1 →
  permutation_of fmt1 fmt2 → permutation_of fmt2 fmt3 →
  well_formed input → valid_shape input →
  ∃ mid output,
    VecPermute.Compile E first input = ok (Some mid) ∧
    VecPermute.Compile E second mid = ok (Some output) ∧
    VecPermute.Compile E direct input = ok (Some output).
Proof.
  intros (Hs1 & Hs2 & _ & _ & ->)%vec_permute_new_ok
         (_ & _ & _ & _ & ->)%vec_permute_new_ok
         (_ & _ & _ & _ & ->)%vec_permute_new_ok
         Hnd1 H12 H23 Hwf Hshape.
  pose proof (permutation_of_distinct _ _ Hnd1 H12) as Hnd2.
  pose proof (permutation_of_trans _ _ _ H12 H23) as H13.
  eexists _, _. split; [by apply vec_permute_compile_valid|].
  split; [|by apply vec_permute_compile_valid].
  match goal with
  | |- VecPermute.Compile _ ?k ?mid = _ =>
      rewrite (vec_permute_compile_valid E k mid Hs2 Hnd2 H23 Hshape)
  end.
  cbn [element_type dimensions VecPermute.src_format_ VecPermute.dst_format_].
  do 4 f_equal.
  etrans; [symmetry; apply list_fmap_compose|].
  etrans; [|apply list_fmap_compose].
  apply Forall_fmap_ext_1, Forall_forall. intros c Hc. cbn [compose].
  assert (Hin : c ∈ chars fmt2).
  { unfold permutation_of in H23. by rewrite H23. }
  pose proof (vec_permute_output_row
                {| VecPermute.src_format_ := fmt1;
                   VecPermute.dst_format_ := fmt2 |}
                input (index_in fmt2 c) c Hwf Hshape Hs1 Hnd1 H12
                (index_in_elem_of fmt2 c Hin)) as Hrow.
  exact Hrow.
Qed.

Lemma vec_permute_compose_witness :
  ∃ mid output,
    VecPermute.Compile example_env
      {| VecPermute.src_format_ := "NHWC"; VecPermute.dst_format_ := "NCHW" |}
      {| element_type := S32; dimensions := [4];
         values := [10; 20; 30; 40] |} = ok (Some mid) ∧
    VecPermute.Compile example_env
      {| VecPermute.src_format_ := "NCHW"; VecPermute.dst_format_ := "HWNC" |}
      mid = ok (Some output) ∧
    VecPermute.Compile example_env
      {| VecPermute.src_format_ := "NHWC"; VecPermute.dst_format_ := "HWNC" |}
      {| element_type := S32; dimensions := [4];
         values := [10; 20; 30; 40] |} = ok (Some output).
Proof.
  apply (vec_permute_compose example_env "NHWC" "NCHW" "HWNC").
  - reflexivity.
  - reflexivity.
  - reflexivity.
  - exact NHWC_distinct.
  - exact NHWC_NCHW_permutation.
  - apply (proj2 (vec_permute_new_layouts example_env "NCHW" "HWNC" _
                    example_env_recognizes_layouts eq_refl)).
  - split; [repeat constructor; lia | reflexivity].
  - left. reflexivity.
Defined.

(** X10: the two kernels derive their tables in opposite directions:
    for two arrangements of the same four distinct symbols, the table
    that the vector-permute kernel fills for a source and a destination
    is the table that the constructor of the dimension-index-remap
    kernel derives for the destination as source and the source as
    destination. *)
Theorem vec_permute_table_is_reverse_dim_map_table src_format dst_format :
  size src_format = 4%nat →
  distinct_symbols src_format →
  permutation_of src_format dst_format →
  ∃ reverse,
    DimMap.new dst_format src_format = ok reverse ∧
    mapM id (VecPermute.dst_indices
               {| VecPermute.src_format_ := src_format;
                  VecPermute.dst_format_ := dst_format |})
    = Some (DimMap.dst_idx_ reverse).
Proof.
  intros Hs Hnd Hperm. eexists. split.
  - apply dim_map_new_permutation.
    + by rewrite (permutation_of_size _ _ Hperm).
    + by apply permutation_of_sym.
  - by rewrite vec_permute_dst_indices.
Qed.

Lemma vec_permute_table_is_reverse_dim_map_table_witness :
  ∃ reverse,
    DimMap.new "NCHW" "NHWC" = ok reverse ∧
    mapM id (VecPermute.dst_indices
               {| VecPermute.src_format_ := "NHWC";
                  VecPermute.dst_format_ := "NCHW" |})
    = Some (DimMap.dst_idx_ reverse).
Proof.
  exact (vec_permute_table_is_reverse_dim_map_table "NHWC" "NCHW"
           eq_refl NHWC_distinct NHWC_NCHW_permutation).
Defined.

(** ** Further properties of the dimension-index-remap kernel *)

Lemma position_least c l k k' :
  position c l = Some k → (k' < k)%nat → l !! k' ≠ Some c.
Proof.
  revert k k'. induction l as [|d l IH]; intros k k'; simpl; [done|].
  destruct (Ascii.eqb_spec d c) as [->|Hne].
  - intros [= <-] ?. lia.
  - destruct (position c l) as [n|] eqn:Hn; simpl; [|done].
    intros [= <-] Hlt. destruct k' as [|k']; simpl; [congruence|].
    apply (IH n); [done | lia].
Qed.

(** The entry of the table for the source position [i]. *)
Lemma dim_map_table_lookup src_format dst_format this i c :
  DimMap.new src_format dst_format = ok this →
  chars src_format !! i = Some c →
  c ∈ chars dst_format ∧
  DimMap.dst_idx_ this !! i = Some (entry dst_format c).
Proof.
  intros (_ & _ & Hall & ->)%dim_map_new_ok Hi. split.
  - rewrite Forall_forall in Hall. apply Hall.
    by eapply list_elem_of_lookup_2.
  - by rewrite list_lookup_fmap, Hi.
Qed.

(** X11: the entry for a source position is the first position of its
    symbol in the destination format, also when the destination repeats
    the symbol. *)
Theorem dim_map_entry_is_first_match src_format dst_format this i c :
  DimMap.new src_format dst_format = ok this →
  chars src_format !! i = Some c →
  ∃ o, DimMap.dst_idx_ this !! i = Some (Z.of_nat o) ∧
       chars dst_format !! o = Some c ∧
       ∀ o', (o' < o)%nat → chars dst_format !! o' ≠ Some c.
Proof.
  intros Hnew Hi.
  destruct (dim_map_table_lookup _ _ _ _ _ Hnew Hi) as [Hin Hentry].
  exists (index_in dst_format c). split; [done|]. split.
  - by apply index_in_elem_of.
  - intros o' Ho'. unfold index_in in Ho'.
    destruct (position_elem_of _ _ Hin) as [k Hk]. rewrite Hk in Ho'.
    by apply (position_least c _ k).
Qed.

Lemma dim_map_entry_is_first_match_witness :
  ∃ o, [2; 2; 1; 0] !! 0%nat = Some (Z.of_nat o) ∧
       chars "NHWW" !! o = Some "W"%char ∧
       ∀ o', (o' < o)%nat → chars "NHWW" !! o' ≠ Some "W"%char.
Proof.
  exact (dim_map_entry_is_first_match "WWHN" "NHWW"
           {| DimMap.dst_idx_ := [2; 2; 1; 0] |} 0%nat "W"%char
           eq_refl eq_refl).
Defined.

(** The emitted value for input elements in [-4,4), for any accepted
    pair of formats. *)
Lemma dim_map_compile_values (E : Externals)
      src_format dst_format this input :
  DimMap.new src_format dst_format = ok this →
  Forall (λ v, -4 <= v < 4) (values input) →
  DimMap.Compile E this input =
  {| element_type := element_type input;
     dimensions := dimensions input;
     values := (λ v, DimMap.dst_idx_ this !!! Z.to_nat ((v + 4) mod 4))
               <$> values input |}.
Proof.
  intros Hnew Hall.
  destruct (dim_map_table_range _ _ _ Hnew) as [Hlen Hrange].
  rewrite dim_map_compile_in_range.
  2: { eapply Forall_impl; [exact Hall|]. intros v Hv. cbn beta in Hv |- *.
       destruct (normalized_in_table v Hv) as [-> ?]. lia. }
  f_equal. apply Forall_fmap_ext_1.
  eapply Forall_impl; [exact Hall|]. intros v Hv. cbn beta in Hv.
  destruct (normalized_in_table v Hv) as [-> Hix].
  apply wrap_small.
  assert (Hentry : 0 <= DimMap.dst_idx_ this !!! Z.to_nat ((v + 4) mod 4) < 4).
  { apply (Forall_lookup_total_1 (λ x, 0 <= x < 4)); [done|]. lia. }
  destruct (element_type input); int_bounds; lia.
Qed.

(** X12: for any accepted pair of formats and any input whose elements
    lie in [-4,4), the output has the element type and the shape of the
    input, and each output element is the position in the destination
    format of the source symbol that the input element names, counted
    from the end when it is negative. *)
Theorem dim_map_compile_remaps_positions (E : Externals)
        src_format dst_format this input :
  DimMap.new src_format dst_format = ok this →
  Forall (λ v, -4 <= v < 4) (values input) →
  element_type (DimMap.Compile E this input) = element_type input ∧
  dimensions (DimMap.Compile E this input) = dimensions input ∧
  Forall2 (λ v o, 0 <= o < 4 ∧
                  is_Some (chars src_format !! Z.to_nat ((v + 4) mod 4)) ∧
                  chars dst_format !! Z.to_nat o
                  = chars src_format !! Z.to_nat ((v + 4) mod 4))
          (values input) (values (DimMap.Compile E this input)).
Proof.
  intros Hnew Hall. rewrite (dim_map_compile_values E _ _ _ _ Hnew Hall).
  cbn [element_type dimensions values]. split; [done|]. split; [done|].
  apply Forall2_fmap_r, Forall_Forall2_diag.
  eapply Forall_impl; [exact Hall|]. intros v Hv. cbn beta in Hv.
  unfold compose. cbn beta.
  pose proof (Z.mod_pos_bound (v + 4) 4 ltac:(lia)) as Hn.
  destruct (dim_map_new_ok _ _ _ Hnew) as (Hs & _ & _ & _).
  destruct (lookup_lt_is_Some_2 (chars src_format)
              (Z.to_nat ((v + 4) mod 4))) as [c Hc].
  { rewrite length_chars, Hs. lia. }
  destruct (dim_map_table_lookup _ _ _ _ _ Hnew Hc) as [Hin Hentry].
  rewrite (list_lookup_total_correct _ _ _ Hentry), Hc.
  unfold entry. rewrite Nat2Z.id.
  pose proof (index_in_lt dst_format c Hin) as Hlt.
  destruct (dim_map_new_ok _ _ _ Hnew) as (_ & Hd & _ & _).
  split; [lia|]. split; [by eexists|]. by apply index_in_elem_of.
Qed.

Lemma dim_map_compile_remaps_positions_witness :
  Forall (λ v, -4 <= v < 4) [-1; 0; 3; -4] ∧
  Forall2 (λ v o, 0 <= o < 4 ∧
                  is_Some (chars "HWNC" !! Z.to_nat ((v + 4) mod 4)) ∧
                  chars "NCHW" !! Z.to_nat o
                  = chars "HWNC" !! Z.to_nat ((v + 4) mod 4))
          [-1; 0; 3; -4]
          (values (DimMap.Compile example_env
                     {| DimMap.dst_idx_ := [2; 3; 0; 1] |}
                     {| element_type := S32; dimensions := [2; 2];
                        values := [-1; 0; 3; -4] |})).
Proof.
  assert (H : Forall (λ v, -4 <= v < 4) [-1; 0; 3; -4])
    by (repeat (constructor; [lia|]); constructor).
  split; [exact H|].
  exact (proj2 (proj2
           (dim_map_compile_remaps_positions example_env "HWNC" "NCHW"
              {| DimMap.dst_idx_ := [2; 3; 0; 1] |}
              {| element_type := S32; dimensions := [2; 2];
                 values := [-1; 0; 3; -4] |}
              eq_refl H))).
Defined.

(** Going through two tables in turn. *)
Lemma dim_map_tables_chain fmt1 fmt2 fmt3 first second :
  DimMap.new fmt1 fmt2 = ok first →
  DimMap.new fmt2 fmt3 = ok second →
  ∃ direct,
    DimMap.new fmt1 fmt3 = ok direct ∧
    ∀ i j, DimMap.dst_idx_ first !! i = Some j →
           DimMap.dst_idx_ second !! Z.to_nat j = DimMap.dst_idx_ direct !! i.
Proof.
  intros H12 H23.
  destruct (dim_map_new_ok _ _ _ H12) as (Hs1 & Hs2 & Hall12 & Ht12).
  destruct (dim_map_new_ok _ _ _ H23) as (_ & Hs3 & Hall23 & Ht23).
  rewrite Forall_forall in Hall12, Hall23.
  eexists. split.
  - apply dim_map_new_accepts; [done..|].
    apply Forall_forall. intros c Hc. by apply Hall23, Hall12.
  - cbn [DimMap.dst_idx_]. intros i j Hj.
    rewrite Ht12, list_lookup_fmap in Hj.
    destruct (chars fmt1 !! i) as [c|] eqn:Hc; [|done].
    injection Hj as <-.
    assert (Hin : c ∈ chars fmt2).
    { by eapply Hall12, list_elem_of_lookup_2. }
    unfold entry at 1. rewrite Nat2Z.id.
    rewrite Ht23, !list_lookup_fmap, Hc, (index_in_elem_of fmt2 c Hin). done.
Qed.

(** X13: tables compose.  When the constructor accepts a first format
    with a second and the second with a third, it accepts the first with
    the third, and going through the two tables in turn gives the entry
    of the third table; no format needs distinct symbols for it. *)
Theorem dim_map_tables_compose fmt1 fmt2 fmt3 first second :
  DimMap.new fmt1 fmt2 = ok first →
  DimMap.new fmt2 fmt3 = ok second →
  ∃ direct,
    DimMap.new fmt1 fmt3 = ok direct ∧
    ∀ i j, DimMap.dst_idx_ first !! i = Some j →
           DimMap.dst_idx_ second !! Z.to_nat j = DimMap.dst_idx_ direct !! i.
Proof. apply dim_map_tables_chain. Qed.

Lemma dim_map_tables_compose_witness :
  ∃ direct,
    DimMap.new "NHWC" "HWNC" = ok direct ∧
    ∀ i j, [0; 2; 3; 1] !! i = Some j →
           [2; 3; 0; 1] !! Z.to_nat j = DimMap.dst_idx_ direct !! i.
Proof.
  exact (dim_map_tables_compose "NHWC" "NCHW" "HWNC"
           {| DimMap.dst_idx_ := [0; 2; 3; 1] |}
           {| DimMap.dst_idx_ := [2; 3; 0; 1] |} eq_refl eq_refl).
Defined.

(** Two emitted computations in turn. *)
Lemma dim_map_compile_chain (E : Externals) fmt1 fmt2 fmt3
      first second direct input :
  DimMap.new fmt1 fmt2 = ok first →
  DimMap.new fmt2 fmt3 = ok second →
  DimMap.new fmt1 fmt3 = ok direct →
  Forall (λ v, -4 <= v < 4) (values input) →
  DimMap.Compile E second (DimMap.Compile E first input)
  = DimMap.Compile E direct input.
Proof.
  intros H12 H23 H13 Hall.
  destruct (dim_map_tables_chain _ _ _ _ _ H12 H23) as (direct' & H13' & Hcomp).
  rewrite H13 in H13'. injection H13' as <-.
  destruct (dim_map_table_range _ _ _ H12) as [Hlen Hrange].
  rewrite (dim_map_compile_values E _ _ _ _ H12 Hall).
  rewrite (dim_map_compile_values E _ _ _ _ H13 Hall).
  rewrite (dim_map_compile_values E _ _ _ _ H23).
  2: { cbn [values]. apply Forall_fmap.
       eapply Forall_impl; [exact Hall|]. intros v Hv. cbn beta in Hv.
       cbn [compose].
       pose proof (Z.mod_pos_bound (v + 4) 4 ltac:(lia)).
       assert (0 <= DimMap.dst_idx_ first !!! Z.to_nat ((v + 4) mod 4) < 4);
         [|lia].
       apply (Forall_lookup_total_1 (λ x, 0 <= x < 4)); [done|]. lia. }
  cbn [element_type dimensions values]. f_equal.
  rewrite <- list_fmap_compose. apply Forall_fmap_ext_1.
  eapply Forall_impl; [exact Hall|]. intros v Hv. cbn beta in Hv.
  cbn [compose].
  pose proof (Z.mod_pos_bound (v + 4) 4 ltac:(lia)) as Hn.
  destruct (lookup_lt_is_Some_2 (DimMap.dst_idx_ first)
              (Z.to_nat ((v + 4) mod 4))) as [j Hj]; [lia|].
  rewrite (list_lookup_total_correct _ _ _ Hj).
  assert (Hjr : 0 <= j < 4).
  { by apply (Forall_lookup_1 (λ x, 0 <= x < 4) _ _ _ Hrange Hj). }
  replace ((j + 4) mod 4) with j.
  - rewrite !list_lookup_total_alt. by rewrite (Hcomp _ _ Hj).
  - replace (j + 4) with (j + 1 * 4) by lia.
    rewrite Z.mod_add by lia. symmetry. apply Z.mod_small. lia.
Qed.

(** X14: the emitted computations compose in the same way: on an input
    whose elements lie in [-4,4), remapping from a first format to a
    second and then from the second to a third gives what the kernel
    from the first to the third gives. *)
Theorem dim_map_compile_compose (E : Externals) fmt1 fmt2 fmt3
        first second direct input :
  DimMap.new fmt1 fmt2 = ok first →
  DimMap.new fmt2 fmt3 = ok second →
  DimMap.new fmt1 fmt3 = ok direct →
  Forall (λ v, -4 <= v < 4) (values input) →
  DimMap.Compile E second (DimMap.Compile E first input)
  = DimMap.Compile E direct input.
Proof. apply dim_map_compile_chain. Qed.

Lemma dim_map_compile_compose_witness :
  Forall (λ v, -4 <= v < 4) [0; 1; 2; 3; -1; -2] ∧
  DimMap.Compile example_env {| DimMap.dst_idx_ := [2; 3; 0; 1] |}
    (DimMap.Compile example_env {| DimMap.dst_idx_ := [0; 2; 3; 1] |}
       {| element_type := S64; dimensions := [6];
          values := [0; 1; 2; 3; -1; -2] |})
  = DimMap.Compile example_env {| DimMap.dst_idx_ := [2; 0; 1; 3] |}
      {| element_type := S64; dimensions := [6];
         values := [0; 1; 2; 3; -1; -2] |}.
Proof.
  assert (H : Forall (λ v, -4 <= v < 4) [0; 1; 2; 3; -1; -2])
    by (repeat (constructor; [lia|]); constructor).
  split; [exact H|].
  exact (dim_map_compile_compose example_env "NHWC" "NCHW" "HWNC"
           {| DimMap.dst_idx_ := [0; 2; 3; 1] |}
           {| DimMap.dst_idx_ := [2; 3; 0; 1] |}
           {| DimMap.dst_idx_ := [2; 0; 1; 3] |}
           {| element_type := S64; dimensions := [6];
              values := [0; 1; 2; 3; -1; -2] |}
           eq_refl eq_refl eq_refl H).
Defined.

Lemma dim_map_identity_table fmt :
  size fmt = 4%nat → distinct_symbols fmt →
  DimMap.new fmt fmt = ok {| DimMap.dst_idx_ := [0; 1; 2; 3] |}.
Proof.
  intros Hs Hnd.
  rewrite (dim_map_new_permutation fmt fmt Hs (Permutation_refl _)).
  do 2 f_equal. unfold entry.
  rewrite (list_fmap_compose (index_in fmt) Z.of_nat).
  rewrite (fmap_by_position (index_in fmt) id).
  - by rewrite list_fmap_id, length_chars, Hs.
  - intros i c Hi. by apply index_in_lookup.
Qed.

(** X15: a format of four distinct symbols remapped to itself gives the
    identity table. *)
Theorem dim_map_same_format_identity fmt :
  size fmt = 4%nat → distinct_symbols fmt →
  DimMap.new fmt fmt = ok {| DimMap.dst_idx_ := [0; 1; 2; 3] |}.
Proof. apply dim_map_identity_table. Qed.

Lemma dim_map_same_format_identity_witness :
  DimMap.new "NHWC" "NHWC" = ok {| DimMap.dst_idx_ := [0; 1; 2; 3] |}.
Proof.
  exact (dim_map_same_format_identity "NHWC" eq_refl NHWC_distinct).
Defined.

(** X16: round trip of the emitted computations.  For two arrangements
    of the same four distinct symbols, remapping an input whose elements
    lie in [0,4) to the other format and back returns the input; an
    element in [-4,0) comes back as the position it names, counted from
    the front. *)
Theorem dim_map_compile_round_trip (E : Externals)
        src_format dst_format there back input :
  DimMap.new src_format dst_format = ok there →
  DimMap.new dst_format src_format = ok back →
  distinct_symbols src_format →
  Forall (λ v, -4 <= v < 4) (values input) →
  DimMap.Compile E back (DimMap.Compile E there input)
  = {| element_type := element_type input;
       dimensions := dimensions input;
       values := (λ v, (v + 4) mod 4) <$> values input |}
  ∧ (Forall (λ v, 0 <= v) (values input) →
     DimMap.Compile E back (DimMap.Compile E there input) = input).
Proof.
  intros Hthere Hback Hnd Hall.
  destruct (dim_map_new_ok _ _ _ Hthere) as (Hs & _ & _ & _).
  pose proof (dim_map_identity_table src_format Hs Hnd) as Hid.
  rewrite (dim_map_compile_chain E _ _ _ _ _ _ input Hthere Hback Hid Hall).
  rewrite (dim_map_compile_values E _ _ _ _ Hid Hall).
  cbn [DimMap.dst_idx_].
  assert (Hvals : (λ v, [0; 1; 2; 3] !!! Z.to_nat ((v + 4) mod 4))
                    <$> values input
                  = (λ v, (v + 4) mod 4) <$> values input).
  { apply Forall_fmap_ext_1. eapply Forall_impl; [exact Hall|].
    intros v Hv. cbn beta in Hv |- *.
    pose proof (Z.mod_pos_bound (v + 4) 4 ltac:(lia)) as Hn.
    assert (Hcases : (v + 4) mod 4 = 0 ∨ (v + 4) mod 4 = 1 ∨
                     (v + 4) mod 4 = 2 ∨ (v + 4) mod 4 = 3) by lia.
    by destruct Hcases as [-> | [-> | [-> | ->]]]. }
  rewrite Hvals. split; [done|].
  intros Hpos. destruct input as [ty dims vals].
  cbn [element_type dimensions values] in *.
  f_equal. rewrite <- (list_fmap_id vals) at 2. apply Forall_fmap_ext_1.
  rewrite Forall_forall in Hall, Hpos. apply Forall_forall. intros v Hv.
  specialize (Hall v Hv). specialize (Hpos v Hv). cbn beta in *.
  unfold id. replace (v + 4) with (v + 1 * 4) by lia.
  rewrite Z.mod_add by lia. apply Z.mod_small. lia.
Qed.

Lemma dim_map_compile_round_trip_witness :
  Forall (λ v, -4 <= v < 4) [3; 1; 0; 2; 2] ∧
  DimMap.Compile example_env {| DimMap.dst_idx_ := [0; 3; 1; 2] |}
    (DimMap.Compile example_env {| DimMap.dst_idx_ := [0; 2; 3; 1] |}
       {| element_type := S32; dimensions := [5];
          values := [3; 1; 0; 2; 2] |})
  = {| element_type := S32; dimensions := [5]; values := [3; 1; 0; 2; 2] |}.
Proof.
  assert (H : Forall (λ v, -4 <= v < 4) [3; 1; 0; 2; 2])
    by (repeat (constructor; [lia|]); constructor).
  split; [exact H|].
  apply (proj2 (dim_map_compile_round_trip example_env "NHWC" "NCHW"
                  {| DimMap.dst_idx_ := [0; 2; 3; 1] |}
                  {| DimMap.dst_idx_ := [0; 3; 1; 2] |}
                  {| element_type := S32; dimensions := [5];
                     values := [3; 1; 0; 2; 2] |}
                  eq_refl eq_refl NHWC_distinct H)).
  cbn [values]. repeat (constructor; [lia|]). constructor.
Defined.

(** X17: the two kernels agree on where an axis goes.  For two
    arrangements of the same four distinct symbols, the slice that the
    input of the vector-permute kernel holds for source position [i] is
    found in its output at the position that the table of the
    dimension-index-remap kernel gives for [i]. *)
Theorem vec_permute_follows_dim_map (E : Externals)
        src_format dst_format table this input i :
  DimMap.new src_format dst_format = ok table →
  VecPermute.new E src_format dst_format = ok this →
  distinct_symbols src_format →
  permutation_of src_format dst_format →
  well_formed input → valid_shape input →
  (i < 4)%nat →
  ∃ output o,
    VecPermute.Compile E this input = ok (Some output) ∧
    DimMap.dst_idx_ table !! i = Some (Z.of_nat o) ∧
    (o < 4)%nat ∧
    row output o = row input i.
Proof.
  intros Htable (Hs & Hd & _ & _ & ->)%vec_permute_new_ok
         Hnd Hperm Hwf Hshape Hi.
  destruct (lookup_lt_is_Some_2 (chars src_format) i) as [c Hc].
  { by rewrite length_chars, Hs. }
  destruct (dim_map_table_lookup _ _ _ _ _ Htable Hc) as [Hin Hentry].
  eexists _, (index_in dst_format c).
  split; [by apply vec_permute_compile_valid|].
  split; [done|]. split.
  - rewrite <- Hd. by apply index_in_lt.
  - rewrite (vec_permute_output_row
               {| VecPermute.src_format_ := src_format;
                  VecPermute.dst_format_ := dst_format |} input _ c);
      try done.
    + cbn [VecPermute.src_format_]. by rewrite (index_in_lookup _ c i).
    + by apply index_in_elem_of.
Qed.

Lemma vec_permute_follows_dim_map_witness :
  ∃ output o,
    VecPermute.Compile example_env
      {| VecPermute.src_format_ := "NHWC"; VecPermute.dst_format_ := "NCHW" |}
      {| element_type := S32; dimensions := [4; 2];
         values := [10; 11; 20; 21; 30; 31; 40; 41] |} = ok (Some output) ∧
    [0; 2; 3; 1] !! 3%nat = Some (Z.of_nat o) ∧
    (o < 4)%nat ∧
    row output o
    = row {| element_type := S32; dimensions := [4; 2];
             values := [10; 11; 20; 21; 30; 31; 40; 41] |} 3.
Proof.
  apply (vec_permute_follows_dim_map example_env "NHWC" "NCHW"
           {| DimMap.dst_idx_ := [0; 2; 3; 1] |}
           {| VecPermute.src_format_ := "NHWC"; VecPermute.dst_format_ := "NCHW" |}
           {| element_type := S32; dimensions := [4; 2];
              values := [10; 11; 20; 21; 30; 31; 40; 41] |} 3%nat).
  - reflexivity.
  - reflexivity.
  - exact NHWC_distinct.
  - exact NHWC_NCHW_permutation.
  - split; [repeat constructor; lia | reflexivity].
  - right. reflexivity.
  - lia.
Defined.

(** The sum [v + 4] leaves the 32-bit range for the four largest
    values; the addition wraps around. *)
Lemma normalized_overflow v :
  max_value S32 - 4 < v <= max_value S32 →
  normalized v = Z.rem (v + 4 - 2 ^ 32) 4.
Proof.
  intros H. unfold normalized.
  rewrite (wrap_small S32 v) by (int_bounds; lia).
  assert (Hsum : wrap S32 (v + 4) = v + 4 - 2 ^ 32).
  { etrans; [|apply (wrap_small S32 (v + 4 - 2 ^ 32)); int_bounds; lia].
    rewrite <- (wrap_add_multiple S32 (v + 4 - 2 ^ 32) 1).
    f_equal. cbn [bit_width]. lia. }
  rewrite Hsum.
  pose proof (Z.rem_bound_abs (v + 4 - 2 ^ 32) 4 ltac:(lia)).
  apply wrap_small. int_bounds; lia.
Qed.

(** X18: at the upper end of the 32-bit range the normalization wraps.
    For the four largest values [v], [v + 4] overflows, and the index is
    the truncated remainder of the wrapped sum, in (-4, 0]; only for
    [v = 2^31 - 4] is it a position of the table. *)
Theorem dim_map_index_at_upper_bound input i v :
  values input !! i = Some v →
  max_value S32 - 4 < v <= max_value S32 →
  ∃ ix, values (DimMap.src_indices input) !! i = Some ix ∧
        ix = Z.rem (v + 4 - 2 ^ 32) 4 ∧
        -4 < ix <= 0 ∧
        (0 <= ix < 4 ↔ v = max_value S32 - 3).
Proof.
  intros Hi Hv. exists (normalized v).
  rewrite src_indices_eq. cbn [values].
  rewrite list_lookup_fmap, Hi. split; [done|].
  rewrite (normalized_overflow v Hv). split; [done|].
  int_bounds.
  assert (Hcases : v = 2147483644 ∨ v = 2147483645 ∨
                   v = 2147483646 ∨ v = 2147483647) by lia.
  destruct Hcases as [-> | [-> | [-> | ->]]]; vm_compute;
    intuition (congruence || discriminate).
Qed.

Lemma dim_map_index_at_upper_bound_witness :
  ∃ ix, values (DimMap.src_indices
                  {| element_type := S32; dimensions := [1];
                     values := [2147483647] |}) !! 0%nat = Some ix ∧
        ix = Z.rem (2147483647 + 4 - 2 ^ 32) 4 ∧
        -4 < ix <= 0 ∧
        (0 <= ix < 4 ↔ 2147483647 = max_value S32 - 3).
Proof.
  apply (dim_map_index_at_upper_bound
           {| element_type := S32; dimensions := [1];
              values := [2147483647] |} 0%nat 2147483647).
  - reflexivity.
  - int_bounds. lia.
Defined.
